(** * mite-cli: the customer listing pipeline and the name resolver

    A shallow embedding of the parts of mite-cli that carry design contracts:
    - [mite-customers] (the list / filter / sort / project pipeline),
    - [mite-new] (candidate lists, [checkResults], [cliMode], [main]),
    - the [customer-update] completion module and the [--archived] coercion.

    Conventions of the embedding.
    - A JavaScript string is a Rocq [string]; a literal is read as its UTF-8
      bytes.  [toUpperCase] and [toLowerCase] map the ASCII letters and leave
      every other byte alone, which is what the engine does on ASCII text;
      case mappings of non-ASCII letters are outside the model, and so is the
      order of non-ASCII strings (the engine compares code units).  The
      statements that depend on the case or the order of strings are made
      for the inputs of [Scope].
    - A number is an integer ([Z]): identifiers and amounts in cents;
      [String] prints it in full, as the engine does for the integers a
      number holds exactly (magnitude at most 2^53 - 1).
    - The options of a command are those commander hands to the coercions;
      command lines that commander ends by itself (--help, --version, an
      option without its value) are not represented.
    - A record of the store is a finite map from attribute names to scalar
      values; reading an absent attribute gives [VUndefined].
    - Console output, store calls and mutations are events of a trace;
      [process.exit] and exceptions end a run. *)

From Stdlib Require Import ZArith String Ascii List Bool Lia.
From Stdlib Require Import Sorted Permutation DecimalString.
From stdpp Require Import base strings gmap.
Import ListNotations.
Local Open Scope Z_scope.

(** ** JavaScript values and built-ins *)
Module JS.

Inductive Value : Type :=
| VUndefined
| VNull
| VBool (b : bool)
| VNum (n : Z)
| VStr (s : string).

Definition Value_eqb (a b : Value) : bool :=
  match a, b with
  | VUndefined, VUndefined => true
  | VNull, VNull => true
  | VBool x, VBool y => Bool.eqb x y
  | VNum x, VNum y => (x =? y)
  | VStr x, VStr y => String.eqb x y
  | _, _ => false
  end.

(** [a === b] on scalars: same type and same value. *)
Definition strict_eq (a b : Value) : bool := Value_eqb a b.

Definition string_truthy (s : string) : bool :=
  match s with
  | EmptyString => false
  | String _ _ => true
  end.

(** ToBoolean: [undefined], [null], [false], [0] and the empty string are
    falsy. *)
Definition truthy (v : Value) : bool :=
  match v with
  | VUndefined | VNull => false
  | VBool b => b
  | VNum n => negb (n =? 0)
  | VStr s => string_truthy s
  end.

(** [String(v)]. *)
Definition ToString (v : Value) : string :=
  match v with
  | VUndefined => "undefined"
  | VNull => "null"
  | VBool true => "true"
  | VBool false => "false"
  | VNum n => NilZero.string_of_int (Z.to_int n)
  | VStr s => s
  end.

Definition is_lower (c : ascii) : bool :=
  let n := N_of_ascii c in ((97 <=? n) && (n <=? 122))%N.

Definition is_upper (c : ascii) : bool :=
  let n := N_of_ascii c in ((65 <=? n) && (n <=? 90))%N.

Definition upper_char (c : ascii) : ascii :=
  if is_lower c then ascii_of_N (N_of_ascii c - 32) else c.

Definition lower_char (c : ascii) : ascii :=
  if is_upper c then ascii_of_N (N_of_ascii c + 32) else c.

Fixpoint map_chars (f : ascii -> ascii) (s : string) : string :=
  match s with
  | EmptyString => EmptyString
  | String c s' => String (f c) (map_chars f s')
  end.

Definition toUpperCase (s : string) : string := map_chars upper_char s.
Definition toLowerCase (s : string) : string := map_chars lower_char s.

(** [s.indexOf(sub)]: the position of the first occurrence, or [-1]. *)
Fixpoint indexOf_from (s sub : string) (i : Z) : Z :=
  if String.prefix sub s then i
  else match s with
       | EmptyString => -1
       | String _ s' => indexOf_from s' sub (i + 1)
       end.

Definition indexOf (s sub : string) : Z := indexOf_from s sub 0.

(** [arr.indexOf(x)] on an array of strings. *)
Fixpoint array_indexOf_from (arr : list string) (x : string) (i : Z) : Z :=
  match arr with
  | [] => -1
  | y :: arr' => if String.eqb y x then i else array_indexOf_from arr' x (i + 1)
  end.

Definition array_indexOf (arr : list string) (x : string) : Z :=
  array_indexOf_from arr x 0.

(** [s > t] and [s < t] on strings: lexicographic on the code units. *)
Definition string_gt (s t : string) : bool :=
  match String.compare s t with Gt => true | _ => false end.

Definition string_lt (s t : string) : bool :=
  match String.compare s t with Lt => true | _ => false end.

(** [arr.filter(callback)]: walk the array from the left and push every
    element the callback accepts. *)
Definition array_filter {A : Type} (callback : A -> bool) (arr : list A) : list A :=
  fold_left (fun kept x => if callback x then kept ++ [x] else kept) arr [].

(** [arr.sort(comparefn)].  The language requires the sort to be stable, and
    with a consistent comparator the result is determined; it is computed
    here by insertion: an element goes in front of the first later element
    that does not compare below it. *)
Fixpoint sort_insert {A : Type} (comparefn : A -> A -> Z) (x : A) (sorted : list A) : list A :=
  match sorted with
  | [] => [x]
  | y :: sorted' =>
      if comparefn x y <=? 0 then x :: sorted
      else y :: sort_insert comparefn x sorted'
  end.

Fixpoint array_sort {A : Type} (comparefn : A -> A -> Z) (arr : list A) : list A :=
  match arr with
  | [] => []
  | x :: arr' => sort_insert comparefn x (array_sort comparefn arr')
  end.

(** [s.split(sep)] for a one-character separator; the empty string splits
    into one empty piece. *)
Fixpoint split (sep : ascii) (s : string) : list string :=
  match s with
  | EmptyString => [EmptyString]
  | String c s' =>
      if Ascii.eqb c sep then EmptyString :: split sep s'
      else match split sep s' with
           | piece :: pieces => String c piece :: pieces
           | [] => [String c EmptyString]
           end
  end.

(** [arr.join(sep)] on an array of strings. *)
Definition join (sep : string) (arr : list string) : string := String.concat sep arr.

Definition comma : ascii := ascii_of_nat 44.
Definition dquote : string := String (ascii_of_nat 34) EmptyString.

End JS.

(** ** Runs of a command: a trace of events and the way the run ends *)
Module Process.

Inductive ErrorKind : Type := TypeError | ReferenceError | StoreError.

Record Error : Type := { error_kind : ErrorKind; error_message : string }.

(** The time entry handed to the store ([null] and absent fields are [None]). *)
Record Entry : Type := {
  project_id : option Z;
  note : option string;
  minutes : option string;
  service_id : option Z;
  date_at : string;
}.

Inductive Event : Type :=
| console_log (text : string)
| console_log_object (err : Error)
| console_error (text : string)
| api_getCustomers (name : option string)
| api_getProjects
| api_getServices
| inquirer_prompt
| api_addTimeEntry (time_entry : Entry)
| tracker_start (id : Z).

Inductive Outcome (A : Type) : Type :=
| Returned (a : A)
| Exited (code : Z)
| Thrown (err : Error).
Arguments Returned {A} a.
Arguments Exited {A} code.
Arguments Thrown {A} err.

Definition Run (A : Type) : Type := (list Event * Outcome A)%type.

Definition run_ret {A : Type} (a : A) : Run A := ([], Returned a).

Definition run_bind {A B : Type} (m : Run A) (f : A -> Run B) : Run B :=
  match m with
  | (t, Returned a) => let '(t', o) := f a in (t ++ t', o)
  | (t, Exited code) => (t, Exited code)
  | (t, Thrown err) => (t, Thrown err)
  end.

Notation "'let*' x ':=' c 'in' k" := (run_bind c (fun x => k))
  (at level 10, x pattern, c at level 100, k at level 200).
Notation "'do*' c 'in' k" := (run_bind c (fun _ => k))
  (at level 10, c at level 100, k at level 200).

Definition emit (e : Event) : Run unit := ([e], Returned tt).
Definition process_exit {A : Type} (code : Z) : Run A := ([], Exited code).
Definition throw {A : Type} (err : Error) : Run A := ([], Thrown err).

(** [promise.catch(handler)]: the handler runs on a rejection or on an
    exception of an earlier callback; [process.exit] is not catchable. *)
Definition catch {A : Type} (m : Run A) (handler : Error -> Run A) : Run A :=
  match m with
  | (t, Thrown err) => let '(t', o) := handler err in (t ++ t', o)
  | _ => m
  end.

(** What a call of the store's client answers. *)
Inductive Response (A : Type) : Type :=
| Resolved (a : A)
| Rejected (err : Error).
Arguments Resolved {A} a.
Arguments Rejected {A} err.

(** Issue the request [call], then wait for its answer. *)
Definition await {A : Type} (call : Event) (answer : Response A) : Run A :=
  match answer with
  | Resolved a => ([call], Returned a)
  | Rejected err => ([call], Thrown err)
  end.

(** [Promise.all([p, q])]: both requests are issued before either answer is
    looked at; a rejection of either rejects the whole. *)
Definition Promise_all {A B : Type} (p : Run A) (q : Run B) : Run (A * B) :=
  let '(tp, op) := p in
  let '(tq, oq) := q in
  (tp ++ tq,
   match op, oq with
   | Returned a, Returned b => Returned (a, b)
   | Exited code, _ => Exited code
   | Thrown err, _ => Thrown err
   | Returned _, Exited code => Exited code
   | Returned _, Thrown err => Thrown err
   end).

(** [arr.filter(callback)] and [arr.map(callback)] for a callback that may
    print, exit or throw: the walk stops where the callback does. *)
Fixpoint filter_loop {A : Type} (callback : A -> Run bool) (arr kept : list A) : Run (list A) :=
  match arr with
  | [] => run_ret kept
  | x :: arr' =>
      let* b := callback x in
      filter_loop callback arr' (if b then kept ++ [x] else kept)
  end.

Definition array_filterM {A : Type} (callback : A -> Run bool) (arr : list A) : Run (list A) :=
  filter_loop callback arr [].

Fixpoint array_mapM {A B : Type} (callback : A -> Run B) (arr : list A) : Run (list B) :=
  match arr with
  | [] => run_ret []
  | x :: arr' =>
      let* y := callback x in
      let* ys := array_mapM callback arr' in
      run_ret (y :: ys)
  end.

(** [arr.forEach(callback)]. *)
Fixpoint array_forEach {A : Type} (callback : A -> Run unit) (arr : list A) : Run unit :=
  match arr with
  | [] => run_ret tt
  | x :: arr' => do* callback x in array_forEach callback arr'
  end.


Definition is_fetch (e : Event) : bool :=
  match e with
  | api_getCustomers _ | api_getProjects | api_getServices => true
  | _ => false
  end.

(** Lines written to standard output. *)
Definition on_stdout (e : Event) : bool :=
  match e with
  | console_log _ | console_log_object _ => true
  | _ => false
  end.

End Process.

(** ** The store's data and the surroundings of one command invocation *)
Module Project.
Record t : Type := { id : Z; name : string; customer_name : option string }.
End Project.

Module Service.
Record t : Type := { id : Z; name : string; billable : bool }.
End Service.

(** The list calls answer with wrapped items: [{project: {...}}],
    [{service: {...}}]. *)
Record ProjectItem : Type := { project : Project.t }.
Record ServiceItem : Type := { service : Service.t }.

Inductive AddTimeEntryData : Type :=
| data_error (error : string)
| data_time_entry (id : Z).

Module World.
Import Process.
Record t : Type := {
  getProjects : Response (list ProjectItem);
  getServices : Response (list ServiceItem);
  getCustomers : option string -> Response (list (gmap string JS.Value));
  addTimeEntry : Entry -> AddTimeEntryData;
  trackerStart : Z -> Response unit;
  (** the answers typed into the interactive prompt *)
  answers : Entry;
  (** [(new Date()).toISOString().slice(0, 10)] *)
  today : string;
  (** the string [chalk.yellow.bold('$')] evaluates to on this terminal *)
  yellow_bold_dollar : string;
}.
End World.

(** ** mite-new.js *)
Module MiteNew.
Import Process.

Record Candidate : Type := { name : string; value : option Z }.

(** A command-line argument that was not given is [undefined]. *)
Definition arg_truthy (arg : option string) : bool :=
  match arg with
  | Some s => JS.string_truthy s
  | None => false
  end.

(** [`${arg}`] *)
Definition arg_text (arg : option string) : string :=
  match arg with
  | Some s => s
  | None => "undefined"
  end.

Definition no_project : Candidate := {| name := "– (no project)"; value := None |}.
Definition no_service : Candidate := {| name := "– (no service)"; value := None |}.

Definition project_choice (project : Project.t) : Candidate :=
  let nameParts := [Project.name project] in
  let nameParts :=
    match Project.customer_name project with
    | Some customer_name =>
        if JS.string_truthy customer_name
        then nameParts ++ ["(" +:+ customer_name +:+ ")"]
        else nameParts
    | None => nameParts
    end in
  {| name := JS.join " " nameParts; value := Some (Project.id project) |}.

Definition project_choices (response : list ProjectItem) : list Candidate :=
  let projects := map project response in
  let projects := map project_choice projects in
  projects ++ [no_project].

Definition getProjectChoices (w : World.t) : Run (list Candidate) :=
  let* response := await api_getProjects (World.getProjects w) in
  run_ret (project_choices response).

Definition service_choice (dollar : string) (service : Service.t) : Candidate :=
  let nameParts := [Service.name service] in
  let nameParts :=
    if Service.billable service then nameParts ++ [dollar] else nameParts in
  {| name := JS.join " " nameParts; value := Some (Service.id service) |}.

Definition service_choices (dollar : string) (response : list ServiceItem) : list Candidate :=
  let services := map service response in
  let services := map (service_choice dollar) services in
  services ++ [no_service].

Definition getServiceChoices (w : World.t) : Run (list Candidate) :=
  let* response := await api_getServices (World.getServices w) in
  run_ret (service_choices (World.yellow_bold_dollar w) response).

Definition undefined_toUpperCase : Error :=
  {| error_kind := TypeError;
     error_message := "Cannot read property 'toUpperCase' of undefined" |}.

(** [query.toUpperCase()]: a TypeError when the argument was not given. *)
Definition query_toUpperCase (query : option string) : Run string :=
  match query with
  | Some q => run_ret (JS.toUpperCase q)
  | None => throw undefined_toUpperCase
  end.

(** The filter callback of [checkResults]:
    [result.name && (result.name.toUpperCase().indexOf(query.toUpperCase()) > -1)]. *)
Definition name_matches (query : option string) (result : Candidate) : Run bool :=
  if JS.string_truthy (name result) then
    let upper := JS.toUpperCase (name result) in
    let* q := query_toUpperCase query in
    run_ret (JS.indexOf upper q >? -1)
  else run_ret false.

Definition no_match_line (type : string) (query : option string) : string :=
  "No " +:+ type +:+ "s found that match " +:+ JS.dquote +:+ arg_text query +:+ JS.dquote +:+ ".".

Definition multiple_line (type : string) (query : option string) : string :=
  "Found multiple " +:+ type +:+ "s matching  " +:+ JS.dquote +:+ arg_text query +:+ JS.dquote +:+ ":".

Definition hint_line (type : string) : string :=
  "Use the exact name of an existing " +:+ type +:+ "s. List available " +:+ type +:+
  "s using " +:+ JS.dquote +:+ "mite " +:+ type +:+ "s" +:+ JS.dquote.

Definition checkResults (options : list Candidate) (query : option string) (type : string)
  : Run (list Candidate) :=
  let* searchResults := array_filterM (name_matches query) options in
  let exit_with_hint : Run (list Candidate) :=
    do* emit (console_log (hint_line type)) in
    process_exit 1 in
  match length searchResults with
  | 0%nat =>
      do* emit (console_log (no_match_line type query)) in
      exit_with_hint
  | 1%nat => run_ret searchResults
  | _ =>
      do* emit (console_log (multiple_line type query)) in
      do* array_forEach (fun current => emit (console_log ("- " +:+ name current))) searchResults in
      exit_with_hint
  end.

(** [arr[0].value]: a TypeError on an empty array. *)
Definition first_value (arr : list Candidate) : Run (option Z) :=
  match arr with
  | first :: _ => run_ret (value first)
  | [] =>
      throw {| error_kind := TypeError;
               error_message := "Cannot read property 'value' of undefined" |}
  end.

Definition interactiveMode (w : World.t) (note : option string) : Run Entry :=
  let* (projectChoices, serviceChoices) :=
    Promise_all (getProjectChoices w) (getServiceChoices w) in
  do* emit inquirer_prompt in
  run_ret (World.answers w).

Definition cliMode (w : World.t) (note project service minutes date : option string)
  : Run Entry :=
  let* (projects, services) :=
    Promise_all (getProjectChoices w) (getServiceChoices w) in
  let* projects := checkResults projects project "project" in
  let* services := checkResults services service "service" in
  let* project_id := first_value projects in
  let* service_id := first_value services in
  run_ret {| project_id := project_id;
             note := note;
             minutes := minutes;
             service_id := service_id;
             date_at := if arg_truthy date then arg_text date else World.today w |}.

(** [s.substr(-1, 1)] and [s.substr(0, s.length - 1)]. *)
Definition last_char (s : string) : string :=
  String.substring (String.length s - 1) 1 s.

Definition without_last_char (s : string) : string :=
  String.substring 0 (String.length s - 1) s.

Definition created_line (id : Z) : string :=
  "Successfully created new time entry (id: " +:+ JS.ToString (JS.VNum id) +:+ ")".

Definition started_line (id : Z) : string :=
  "Successfully started the time entry (id: " +:+ JS.ToString (JS.VNum id) +:+ ")".

Definition not_started_line (id : Z) (message : string) : string :=
  "Unable to start the time entry (id: " +:+ JS.ToString (JS.VNum id) +:+ "): " +:+ message.

Definition main (w : World.t) (note project service minutes date : option string) : Run unit :=
  let promise :=
    if negb (arg_truthy project) then interactiveMode w note
    else cliMode w note project service minutes date in
  let* entry := promise in
  let entry :=
    {| project_id := Process.project_id entry;
       note := if arg_truthy (Process.note entry) then Process.note entry else note;
       minutes := Process.minutes entry;
       service_id := Process.service_id entry;
       date_at := Process.date_at entry |} in
  if negb (arg_truthy (Process.minutes entry)) then
    emit (console_log "no time entry created due to empty project id or empty minutes")
  else
    let startTracker := String.eqb (last_char (arg_text (Process.minutes entry))) "+" in
    let entry :=
      if startTracker then
        {| project_id := Process.project_id entry;
           note := Process.note entry;
           minutes := Some (without_last_char (arg_text (Process.minutes entry)));
           service_id := Process.service_id entry;
           date_at := Process.date_at entry |}
      else entry in
    do* emit (api_addTimeEntry entry) in
    match World.addTimeEntry w entry with
    | data_error error =>
        do* emit (console_error ("Error while creating new time entry: " +:+ error)) in
        process_exit 1
    | data_time_entry timeEntryId =>
        do* emit (console_log (created_line timeEntryId)) in
        if startTracker then
          do* emit (tracker_start timeEntryId) in
          match World.trackerStart w timeEntryId with
          | Resolved _ => emit (console_log (started_line timeEntryId))
          | Rejected err =>
              do* emit (console_log (not_started_line timeEntryId (error_message err))) in
              process_exit 1
          end
        else run_ret tt
    end.

End MiteNew.

(** ** mite-customers.js: list, filter and search for customers *)
Module MiteCustomers.
Import Process.

(** A customer as the store returns it. *)
Abbreviation Record := (gmap string JS.Value).

(** [item[key]] *)
Definition get (item : Record) (key : string) : JS.Value :=
  match item !! key with
  | Some v => v
  | None => JS.VUndefined
  end.

Definition SORT_OPTIONS : list string :=
  ["id"; "name"; "updated_at"; "created_at"; "hourly_rate"; "rate"].

Definition SORT_OPTIONS_DEFAULT : string := "name".

(** [formater.BUDGET_TYPE] of lib/formater; the command uses [CENTS] only. *)
Inductive BUDGET_TYPE : Type := CENTS.

(** The two formatters the catalog refers to. *)
Inductive Formatter : Type := formater_note | rate_format.

Module ColumnDefinition.
Record t : Type := {
  label : JS.Value;
  attribute : JS.Value;
  width : option Z;
  wrapWord : bool;
  alignment : option string;
  format : option Formatter;
}.
End ColumnDefinition.

Definition COLUMNS_OPTIONS : gmap string ColumnDefinition.t :=
  list_to_map [
    ("created_at"%string,
     {| ColumnDefinition.label := JS.VStr "created at";
        ColumnDefinition.attribute := JS.VStr "created_at";
        ColumnDefinition.width := None;
        ColumnDefinition.wrapWord := false;
        ColumnDefinition.alignment := None;
        ColumnDefinition.format := None |});
    ("id"%string,
     {| ColumnDefinition.label := JS.VStr "id";
        ColumnDefinition.attribute := JS.VStr "id";
        ColumnDefinition.width := Some 10;
        ColumnDefinition.wrapWord := false;
        ColumnDefinition.alignment := Some "right"%string;
        ColumnDefinition.format := None |});
    ("name"%string,
     {| ColumnDefinition.label := JS.VStr "name";
        ColumnDefinition.attribute := JS.VStr "name";
        ColumnDefinition.width := None;
        ColumnDefinition.wrapWord := false;
        ColumnDefinition.alignment := None;
        ColumnDefinition.format := None |});
    ("note"%string,
     {| ColumnDefinition.label := JS.VStr "Note";
        ColumnDefinition.attribute := JS.VStr "note";
        ColumnDefinition.width := Some 50;
        ColumnDefinition.wrapWord := true;
        ColumnDefinition.alignment := Some "left"%string;
        ColumnDefinition.format := Some formater_note |});
    ("rate"%string,
     {| ColumnDefinition.label := JS.VStr "rate";
        ColumnDefinition.attribute := JS.VStr "hourly_rate";
        ColumnDefinition.width := Some 10;
        ColumnDefinition.wrapWord := false;
        ColumnDefinition.alignment := Some "right"%string;
        ColumnDefinition.format := Some rate_format |});
    ("updated_at"%string,
     {| ColumnDefinition.label := JS.VStr "updated at";
        ColumnDefinition.attribute := JS.VStr "updated_at";
        ColumnDefinition.width := None;
        ColumnDefinition.wrapWord := false;
        ColumnDefinition.alignment := None;
        ColumnDefinition.format := None |})
  ].

(** [COLUMNS_OPTIONS] is an object literal, so a read also finds the members
    it inherits from [Object.prototype]: functions (an object for
    [__proto__]) that are truthy and have no [label], [attribute] or
    [format]. *)
Definition Object_prototype_names : list string :=
  ["constructor"; "__defineGetter__"; "__defineSetter__"; "hasOwnProperty";
   "__lookupGetter__"; "__lookupSetter__"; "isPrototypeOf";
   "propertyIsEnumerable"; "toString"; "valueOf"; "__proto__"; "toLocaleString"].

Definition inherited_member : ColumnDefinition.t :=
  {| ColumnDefinition.label := JS.VUndefined;
     ColumnDefinition.attribute := JS.VUndefined;
     ColumnDefinition.width := None;
     ColumnDefinition.wrapWord := false;
     ColumnDefinition.alignment := None;
     ColumnDefinition.format := None |}.

(** [COLUMNS_OPTIONS[attrName]]; [None] is [undefined]. *)
Definition COLUMNS_OPTIONS_get (attrName : string) : option ColumnDefinition.t :=
  match COLUMNS_OPTIONS !! attrName with
  | Some columnDefinition => Some columnDefinition
  | None =>
      if JS.array_indexOf Object_prototype_names attrName >? -1
      then Some inherited_member
      else None
  end.

(** *** Cell formatters *)

(** Modelled from the spec: lib/formater is not among the sources; the two
    decimal places of an amount. *)
Definition two_digits (n : Z) : string :=
  let digits := NilZero.string_of_int (Z.to_int n) in
  if n <? 10 then "0" +:+ digits else digits.

(** Modelled from the spec: lib/formater is not among the sources; cents
    converted to major units, in fixed point with two decimal places. *)
Definition fixed_point_cents (cents : Z) : string :=
  let sign : string := if cents <? 0 then "-" else EmptyString in
  let magnitude := Z.abs cents in
  sign +:+ NilZero.string_of_int (Z.to_int (magnitude / 100)) +:+ "." +:+
  two_digits (magnitude mod 100).

(** The options as given on the command line ([None]: not given). *)
Module Argv.
Record t : Type := {
  archived : option string;
  columns : option string;
  format : option string;
  search : option string;
  sort : option string;
}.
End Argv.

(** The option values after [program.parse]. *)
Module Program.
Record t : Type := {
  archived : JS.Value;
  columns : string;
  format : string;
  search : option string;
  sort : option string;
}.
End Program.

(** The functions of lib/ and the configuration the command refers to. *)
Section Libraries.

(** [formater.note] of lib/formater, which is not among the sources; the
    spec only says that it is a pure mapping. *)
Variable note_format : JS.Value -> Record -> JS.Value.

(** What [formater.budget] of lib/formater makes of a value that is not a
    number; the spec does not say. *)
Variable budget_of_non_number : JS.Value -> string.

(** Modelled from the spec: [formater.budget] of lib/formater is not among
    the sources.  For [BUDGET_TYPE.CENTS] the input is an integer number of
    minor currency units and the output a fixed-point decimal string with
    two decimal places ([1050] gives [10.50]). *)
Definition budget (type : BUDGET_TYPE) (value : JS.Value) : string :=
  match type, value with
  | CENTS, JS.VNum cents => fixed_point_cents cents
  | CENTS, _ => budget_of_non_number value
  end.

(** [COLUMNS_OPTIONS.rate.format] *)
Definition rate_formatter (value : JS.Value) : string :=
  if negb (JS.truthy value) then "-"
  else budget CENTS (if JS.truthy value then value else JS.VNum 0).

Definition apply_format (f : Formatter) (value : JS.Value) (item : Record) : JS.Value :=
  match f with
  | formater_note => note_format value item
  | rate_format => JS.VStr (rate_formatter value)
  end.

(** *** Command-line options *)

(** The [--archived] coercion. *)
Definition archived_coercion (val : JS.Value) : JS.Value :=
  match val with
  | JS.VStr s =>
      JS.VBool (JS.array_indexOf ["true"; "yes"; "ja"; "ok"; "1"]%string (JS.toLowerCase s) >? -1)
  | _ => val
  end.

(** The [--columns] coercion. *)
Definition columns_coercion (str : string) : string :=
  JS.join "," (JS.array_filter JS.string_truthy (JS.split JS.comma str)).

Definition invalid_sort_line (value : string) : string :=
  "Invalid value for sort option: " +:+ JS.dquote +:+ value +:+ JS.dquote +:+
  ", valid values are:  " +:+ JS.join ", " SORT_OPTIONS.

(** The [--sort] coercion. *)
Definition sort_coercion (value : string) : Run string :=
  do* (if JS.array_indexOf SORT_OPTIONS value =? -1 then
         do* emit (console_error (invalid_sort_line value)) in
         process_exit 2
       else run_ret tt) in
  run_ret value.

(** [config.get('outputFormat')], from the configuration file. *)
Variable config_outputFormat : string.

Definition parse (argv : Argv.t) : Run Program.t :=
  let* sort :=
    match Argv.sort argv with
    | Some value => sort_coercion value
    | None => run_ret "name"%string
    end in
  run_ret
    {| Program.archived :=
         match Argv.archived argv with
         | Some val => archived_coercion (JS.VStr val)
         | None => JS.VNull
         end;
       Program.columns :=
         match Argv.columns argv with
         | Some str => columns_coercion str
         | None => "id,name,rate,note"%string
         end;
       Program.format :=
         match Argv.format argv with
         | Some format => format
         | None => config_outputFormat
         end;
       Program.search := Argv.search argv;
       Program.sort := Some sort |}.

(** *** The pipeline *)

Definition filter_callback (program : Program.t) (customer : Record) : bool :=
  if JS.strict_eq (Program.archived program) JS.VNull then true
  else JS.strict_eq (get customer "archived") (Program.archived program).

Definition filter_step (program : Program.t) (customers : list Record) : list Record :=
  JS.array_filter (filter_callback program) customers.

Definition sort_key (sort : string) : string :=
  let key := sort in
  if String.eqb key "rate" then "hourly_rate"%string else key.

Definition sort_value (sort : string) (a : Record) : string :=
  JS.toLowerCase (JS.ToString (get a (sort_key sort))).

Definition sort_comparator (program : Program.t) (a b : Record) : Z :=
  match Program.sort program with
  | Some sort =>
      if negb (JS.string_truthy sort) then 0
      else
        let val1 := sort_value sort a in
        let val2 := sort_value sort b in
        if JS.string_gt val1 val2 then 1
        else if JS.string_lt val1 val2 then -1
        else 0
  | None => 0
  end.

Definition sort_step (program : Program.t) (customers : list Record) : list Record :=
  JS.array_sort (sort_comparator program) customers.

(** The strings [chalk] produces are kept symbolic: a cell is a value with
    the style put on it, not the escape sequences of a given terminal. *)
Inductive Style : Type := grey | bold.

Inductive Cell : Type :=
| plain (v : JS.Value)
| styled (s : Style) (v : JS.Value).

Definition resolve_column (attrName : string) : Run ColumnDefinition.t :=
  match COLUMNS_OPTIONS_get attrName with
  | Some columnDefinition => run_ret columnDefinition
  | None =>
      do* emit (console_error ("Invalid column name " +:+ JS.dquote +:+ attrName +:+ JS.dquote)) in
      process_exit 2
  end.

Definition cell_value (item : Record) (columnDefinition : ColumnDefinition.t) : JS.Value :=
  let value := get item (JS.ToString (ColumnDefinition.attribute columnDefinition)) in
  match ColumnDefinition.format columnDefinition with
  | Some f => apply_format f value item
  | None => value
  end.

Definition table_row (columns : list ColumnDefinition.t) (item : Record) : list Cell :=
  let row := map (cell_value item) columns in
  if JS.truthy (get item "archived") then map (styled grey) row
  else map plain row.

Definition table_header (columns : list ColumnDefinition.t) : list Cell :=
  map (styled bold) (map ColumnDefinition.label columns).

Definition tableData (columns : list ColumnDefinition.t) (items : list Record)
  : list (list Cell) :=
  table_header columns :: map (table_row columns) items.

(** [DataOutput.formatData] of lib/data-output, which is not among the
    sources: it may return the text to print, or fail in a way of its own. *)
Variable formatData : list (list Cell) -> string -> list ColumnDefinition.t -> Run string.

Definition on_failure (err : Error) : Run unit :=
  do* emit (if JS.string_truthy (error_message err)
            then console_log (error_message err)
            else console_log_object err) in
  process_exit 1.

Definition list_customers (w : World.t) (program : Program.t) : Run unit :=
  catch
    (let opts := Program.search program in
     let* customers := await (api_getCustomers opts) (World.getCustomers w opts) in
     let items := sort_step program (filter_step program customers) in
     let* columns := array_mapM resolve_column (JS.split JS.comma (Program.columns program)) in
     let* text := formatData (tableData columns items) (Program.format program) columns in
     emit (console_log text))
    on_failure.

Definition mite_customers (w : World.t) (argv : Argv.t) : Run unit :=
  let* program := parse argv in
  list_customers w program.

End Libraries.

(** *** Serialization of the style marks *)

Inductive Format : Type := table | csv | json.

(** Modelled from the spec: lib/data-output is not among the sources.  The
    spec says that the style marks survive serialization to a format that
    supports colour and are dropped by one that does not (csv, json), whose
    cells carry the plain text of the formatted value only. *)
Definition serialize_cell (format : Format) (cell : Cell) : Cell :=
  match format, cell with
  | table, _ => cell
  | (csv | json), plain v => plain v
  | (csv | json), styled _ v => plain v
  end.

Definition serialize_styles (format : Format) (data : list (list Cell)) : list (list Cell) :=
  map (map (serialize_cell format)) data.

Definition dimmed (cell : Cell) : bool :=
  match cell with
  | styled grey _ => true
  | _ => false
  end.

Definition bolded (cell : Cell) : bool :=
  match cell with
  | styled bold _ => true
  | _ => false
  end.

Definition unstyled (cell : Cell) : bool :=
  match cell with
  | plain _ => true
  | styled _ _ => false
  end.

End MiteCustomers.

(** ** lib/auto-complete/completions/customer-update.js *)
Module CustomerUpdateCompletion.
Import Process.

Record Option : Type := { name : string; description : JS.Value }.

(** The function answers with plain words or with described options. *)
Inductive Completion : Type :=
| word (text : string)
| described (option : Option).

Definition defaults : list Option := [
  {| name := "--archived"; description := JS.VStr "archive or unarchive a project" |};
  {| name := "--hourly-rate"; description := JS.VStr "change the hourly-rate" |};
  {| name := "--name"; description := JS.VStr "change the name of the project" |};
  {| name := "--note"; description := JS.VStr "change the note of the project" |};
  {| name := "--update-entries";
     description := JS.VStr "update time entries when hourly_rate was changed" |};
  {| name := "--help"; description := JS.VStr "show help message" |}
].

(** Reading a [const] binding: before its declaration has run the binding
    is uninitialised ([None]) and the read throws. *)
Definition read_binding {A : Type} (identifier : string) (binding : option A) : Run A :=
  match binding with
  | Some a => run_ret a
  | None =>
      throw {| error_kind := ReferenceError;
               error_message := "Cannot access '" +:+ identifier +:+ "' before initialization" |}
  end.

(** [line.match(/--archived/)] is truthy when the text occurs in the line. *)
Definition matches_archived (line : string) : bool :=
  JS.indexOf line "--archived" >? -1.

Definition customer_option (c : gmap string JS.Value) : Option :=
  {| name := JS.ToString (MiteCustomers.get c "id");
     description := MiteCustomers.get c "name" |}.

Definition special_previous : list string :=
  ["--archived"; "--name"; "--note"; "--hourly-rate"].

(** [module.exports = async ({ prev, line }) => ...] *)
Definition complete (w : World.t) (prev line : string) : Run (list Completion) :=
  if String.eqb prev "--archived" then run_ret [word "yes"; word "no"]
  else if String.eqb prev "--name" then run_ret [word "name"]
  else if String.eqb prev "--note" then run_ret [word "note"]
  else if String.eqb prev "--hourly-rate" then run_ret [word "0.00"]
  else
    let options :=
      JS.array_filter (fun option => JS.indexOf line (name option) =? -1) defaults in
    let requestOptions : option string := None in
    (* [const customerOptions] is declared further down *)
    let customerOptions : option (list Option) := None in
    do* (if matches_archived line then
           (* customerOptions.archived = ...: the target is read first *)
           let* target := read_binding "customerOptions" customerOptions in
           run_ret tt
         else run_ret tt) in
    let* customers := await (api_getCustomers requestOptions) (World.getCustomers w requestOptions) in
    let customerOptions := map customer_option customers in
    run_ret (map described customerOptions ++ map described options).

End CustomerUpdateCompletion.

(** ** mite-customer-update.js: the [--archived] option *)
Module MiteCustomerUpdate.

Definition archived_coercion (val : JS.Value) : JS.Value :=
  match val with
  | JS.VStr s =>
      JS.VBool (JS.array_indexOf ["true"; "yes"; "ja"; "ok"; "1"]%string (JS.toLowerCase s) >? -1)
  | _ => val
  end.

(** [program.archived] after parsing; the option has no default value. *)
Definition program_archived (given : option string) : JS.Value :=
  match given with
  | Some val => archived_coercion (JS.VStr val)
  | None => JS.VUndefined
  end.

End MiteCustomerUpdate.

(** ** What the claims speak about, in the words of the specification *)
Module Spec.

(** [selects P l out]: [out] holds exactly the elements of [l] that satisfy
    [P], each as often as in [l] and in the order of [l]. *)
Inductive selects {A : Type} (P : A -> Prop) : list A -> list A -> Prop :=
| selects_nil : selects P [] []
| selects_keep x l out : P x -> selects P l out -> selects P (x :: l) (x :: out)
| selects_skip x l out : ~ P x -> selects P l out -> selects P (x :: l) out.

(** Two strings are the same when case is ignored. *)
Definition eq_ignoring_case (s t : string) : Prop :=
  JS.toLowerCase s = JS.toLowerCase t.

(** [name] contains [query] as a case-insensitive substring. *)
Definition contains_ignoring_case (query name : string) : Prop :=
  exists before inside after,
    name = before +:+ inside +:+ after /\ eq_ignoring_case inside query.

(** The filter callback of [checkResults] for a query that was given, as a
    plain test. *)
Definition accepts (query : string) (result : MiteNew.Candidate) : bool :=
  JS.string_truthy (MiteNew.name result)
  && (JS.indexOf (JS.toUpperCase (MiteNew.name result)) (JS.toUpperCase query) >? -1).

(** What the Name Resolver prints when the match set is not a single
    candidate: that nothing matched, or every matching name, and then the
    hint. *)
Definition failure_report (type query : string) (match_set : list MiteNew.Candidate)
  : list Process.Event :=
  match match_set with
  | [] =>
      [Process.console_log (MiteNew.no_match_line type (Some query));
       Process.console_log (MiteNew.hint_line type)]
  | _ =>
      Process.console_log (MiteNew.multiple_line type (Some query))
        :: map (fun c => Process.console_log ("- " +:+ MiteNew.name c)) match_set
        ++ [Process.console_log (MiteNew.hint_line type)]
  end.


(** A candidate matches a query: its name is not empty and contains the
    query, case ignored. *)
Definition matching (query : string) (c : MiteNew.Candidate) : Prop :=
  MiteNew.name c <> EmptyString /\ contains_ignoring_case query (MiteNew.name c).


(** The first requested column name the catalog cannot resolve. *)
Fixpoint first_unresolvable (names : list string) : option string :=
  match names with
  | [] => None
  | attrName :: names' =>
      match MiteCustomers.COLUMNS_OPTIONS_get attrName with
      | Some _ => first_unresolvable names'
      | None => Some attrName
      end
  end.

(** A configuration error as the specification wants it: exit code 2, no
    record fetched, nothing on standard output. *)
Definition config_error_contract (run : Process.Run unit) : Prop :=
  snd run = Process.Exited 2
  /\ existsb Process.is_fetch (fst run) = false
  /\ existsb Process.on_stdout (fst run) = false.

(** The tokens the archived option takes for yes. *)
Definition truthy_tokens : list string := ["true"; "yes"; "ja"; "ok"; "1"]%string.

(** The key of the Sort step: the string form of the attribute value, case
    ignored. *)
Definition key (attribute : string) (r : gmap string JS.Value) : string :=
  JS.toLowerCase (JS.ToString (MiteCustomers.get r attribute)).

Definition key_le (attribute : string) (a b : gmap string JS.Value) : Prop :=
  String.leb (key attribute a) (key attribute b) = true.

Definition same_key (attribute : string) (a b : gmap string JS.Value) : Prop :=
  eq_ignoring_case (JS.ToString (MiteCustomers.get a attribute))
                   (JS.ToString (MiteCustomers.get b attribute)).

(** The records whose key is [k], in the order of the list. *)
Definition with_key (attribute k : string) (l : list (gmap string JS.Value))
  : list (gmap string JS.Value) :=
  List.filter (fun r => String.eqb (key attribute r) k) l.

(** Records with equal keys stand in [output] as they stand in [input]. *)
Definition stable (attribute : string) (input output : list (gmap string JS.Value)) : Prop :=
  forall k, with_key attribute k output = with_key attribute k input.

End Spec.

(** ** Sample data *)
Module Samples.

Definition customer_B : gmap string JS.Value :=
  <[ "id"%string := JS.VNum 1 ]>
  (<[ "name"%string := JS.VStr "B" ]>
  (<[ "archived"%string := JS.VBool false ]> ∅)).

Definition customer_A : gmap string JS.Value :=
  <[ "id"%string := JS.VNum 2 ]>
  (<[ "name"%string := JS.VStr "A" ]>
  (<[ "archived"%string := JS.VBool true ]> ∅)).

Definition acme : Project.t :=
  {| Project.id := 1; Project.name := "Acme"; Project.customer_name := Some "Corp"%string |}.

Definition acme_tools : Project.t :=
  {| Project.id := 2; Project.name := "Acme Tools"; Project.customer_name := None |}.

Definition development : Service.t :=
  {| Service.id := 7; Service.name := "Development"; Service.billable := true |}.

Definition world : World.t :=
  {| World.getProjects := Process.Resolved [{| project := acme |}; {| project := acme_tools |}];
     World.getServices := Process.Resolved [{| service := development |}];
     World.getCustomers := fun _ => Process.Resolved [customer_B; customer_A];
     World.addTimeEntry := fun _ => data_time_entry 99;
     World.trackerStart := fun _ => Process.Resolved tt;
     World.answers :=
       {| Process.project_id := Some 1; Process.note := Some "work"%string;
          Process.minutes := Some "30"%string; Process.service_id := Some 7;
          Process.date_at := "2020-01-01" |};
     World.today := "2020-01-01";
     World.yellow_bold_dollar := "$" |}.

Definition argv (columns sort : option string) : MiteCustomers.Argv.t :=
  {| MiteCustomers.Argv.archived := None;
     MiteCustomers.Argv.columns := columns;
     MiteCustomers.Argv.format := None;
     MiteCustomers.Argv.search := None;
     MiteCustomers.Argv.sort := sort |}.

(** Stand-ins for the functions of lib/ that are not among the sources. *)
Definition note_format (value : JS.Value) (item : gmap string JS.Value) : JS.Value := value.

Definition formatData (data : list (list MiteCustomers.Cell)) (format : string)
    (columns : list MiteCustomers.ColumnDefinition.t) : Process.Run string :=
  Process.run_ret format.

Definition mite_customers : World.t -> MiteCustomers.Argv.t -> Process.Run unit :=
  MiteCustomers.mite_customers note_format JS.ToString "table" formatData.

End Samples.

(** ** mite-customer-update.js: the action *)
Module MiteCustomerUpdateAction.

Inductive Event : Type :=
| api_updateCustomer (customerId : string) (data : gmap string JS.Value)
| console_log (text : string)
| console_error (text : string) (err : Process.Error).

(** The object handed to [mite.updateCustomer]: a field is spread in when
    the option value has the expected type.  [program.name] and
    [program.note] are strings only when the options were given. *)
Definition data (archived name note : option string) : gmap string JS.Value :=
  let data : gmap string JS.Value := ∅ in
  let data :=
    match MiteCustomerUpdate.program_archived archived with
    | JS.VBool b => <[ "archived"%string := JS.VBool b ]> data
    | _ => data
    end in
  let data :=
    match name with
    | Some text => <[ "name"%string := JS.VStr text ]> data
    | None => data
    end in
  match note with
  | Some text => <[ "note"%string := JS.VStr text ]> data
  | None => data
  end.

Definition updated_line (customerId : string) : string :=
  "Successfully updated customer (id: " +:+ customerId +:+ ")".

Definition not_updated_line (customerId : string) : string :=
  "Error while updateing customer (id: " +:+ customerId +:+ ")".

(** [.action((customerId) => ...)]; [updateCustomer] is the store's answer. *)
Definition action
    (updateCustomer : string -> gmap string JS.Value -> Process.Response unit)
    (archived name note : option string) (customerId : string)
  : list Event * Process.Outcome unit :=
  let data := data archived name note in
  match updateCustomer customerId data with
  | Process.Resolved _ =>
      ([api_updateCustomer customerId data; console_log (updated_line customerId)],
       Process.Returned tt)
  | Process.Rejected err =>
      ([api_updateCustomer customerId data; console_error (not_updated_line customerId) err],
       Process.Exited 1)
  end.

End MiteCustomerUpdateAction.

(** ** Notions used by the further properties *)
Module Extra.

(** [sub] occurs in [s]. *)
Definition occurs (sub s : string) : Prop :=
  exists before after, s = before +:+ sub +:+ after.

Fixpoint has_char (c : ascii) (s : string) : bool :=
  match s with
  | EmptyString => false
  | String d s' => Ascii.eqb d c || has_char c s'
  end.

(** The non-empty entries of a comma-separated list. *)
Definition entries (str : string) : list string :=
  List.filter JS.string_truthy (JS.split JS.comma str).

(** Both candidate lists arrive and the two queries resolve to [p] and [s]. *)
Definition resolves (w : World.t) (project service : string)
    (p s : MiteNew.Candidate) : Prop :=
  exists ps ss,
    World.getProjects w = Process.Resolved ps
    /\ World.getServices w = Process.Resolved ss
    /\ MiteNew.checkResults (MiteNew.project_choices ps) (Some project) "project"
       = ([], Process.Returned [p])
    /\ MiteNew.checkResults
         (MiteNew.service_choices (World.yellow_bold_dollar w) ss) (Some service) "service"
       = ([], Process.Returned [s]).

(** The entry of the direct mode. *)
Definition direct_entry (w : World.t) (p s : MiteNew.Candidate)
    (note minutes date : option string) : Process.Entry :=
  {| Process.project_id := MiteNew.value p;
     Process.note := note;
     Process.minutes := minutes;
     Process.service_id := MiteNew.value s;
     Process.date_at :=
       if MiteNew.arg_truthy date then MiteNew.arg_text date else World.today w |}.

(** The option values [program.parse] leaves behind for a sort key. *)
Definition parsed (config_outputFormat : string) (argv : MiteCustomers.Argv.t)
    (sort : string) : MiteCustomers.Program.t :=
  {| MiteCustomers.Program.archived :=
       match MiteCustomers.Argv.archived argv with
       | Some val => MiteCustomers.archived_coercion (JS.VStr val)
       | None => JS.VNull
       end;
     MiteCustomers.Program.columns :=
       match MiteCustomers.Argv.columns argv with
       | Some str => MiteCustomers.columns_coercion str
       | None => "id,name,rate,note"%string
       end;
     MiteCustomers.Program.format :=
       match MiteCustomers.Argv.format argv with
       | Some format => format
       | None => config_outputFormat
       end;
     MiteCustomers.Program.search := MiteCustomers.Argv.search argv;
     MiteCustomers.Program.sort := Some sort |}.

Definition fetches : list Process.Event :=
  [Process.api_getProjects; Process.api_getServices].

Definition archived_default : CustomerUpdateCompletion.Option :=
  {| CustomerUpdateCompletion.name := "--archived";
     CustomerUpdateCompletion.description := JS.VStr "archive or unarchive a project" |}.

End Extra.

(** ** The inputs on which the model of the built-ins is exact

    [JS.toUpperCase], [JS.toLowerCase] and the string comparisons work on the
    bytes of a text and know the ASCII letters only; [JS.ToString] prints an
    integer in full.  They agree with the engine on the texts and values
    below; statements that depend on the case of letters or on the order of
    strings are made for such inputs. *)
Module Scope.

Definition en_dash_1 : ascii := ascii_of_nat 226.
Definition en_dash_2 : ascii := ascii_of_nat 128.
Definition en_dash_3 : ascii := ascii_of_nat 147.

(** ASCII characters, and the en dash of the synthetic candidates (a
    character without case). *)
Fixpoint text (s : string) : bool :=
  match s with
  | EmptyString => true
  | String c rest =>
      if (N_of_ascii c <? 128)%N then text rest
      else
        match rest with
        | String d (String e rest') =>
            Ascii.eqb c en_dash_1 && Ascii.eqb d en_dash_2 && Ascii.eqb e en_dash_3
            && text rest'
        | _ => false
        end
  end.

(** Integers that a number holds exactly and [String] prints in full
    (magnitude at most 2^53 - 1). *)
Definition number (n : Z) : bool := Z.abs n <=? 2 ^ 53 - 1.

Definition value (v : JS.Value) : bool :=
  match v with
  | JS.VStr s => text s
  | JS.VNum n => number n
  | _ => true
  end.


(** The attribute the records are sorted by is in scope for every record. *)
Definition records (attribute : string) (items : list (gmap string JS.Value)) : bool :=
  forallb (fun r => value (MiteCustomers.get r attribute)) items.

End Scope.

(** ** lib/data-output, as far as the specification describes it *)
Module DataOutput.
Import MiteCustomers.

Definition format_of (format : string) : option Format :=
  if String.eqb format "table" then Some table
  else if String.eqb format "csv" then Some csv
  else if String.eqb format "json" then Some json
  else None.

(** The value under the style of a cell. *)
Definition content (cell : Cell) : JS.Value :=
  match cell with
  | plain v => v
  | styled _ v => v
  end.

Section Layout.

(** How the cells of a format are laid out as text (widths, separators,
    quoting); the specification leaves it to the serializer and it is not
    modelled. *)
Variable layout : Format -> list (list Cell) -> list ColumnDefinition.t -> string.

(** What the serializer does with a format it does not support (the
    specification calls it fatal and does not say how it ends). *)
Variable unsupported : string -> Process.Run string.

(** Modelled from the spec: [DataOutput.formatData] of lib/data-output is
    not among the sources.  The specification says that the style marks of
    the grid survive serialization to a format that supports colour (table)
    and are dropped by csv and json, whose cells carry the plain content of
    the formatted value only; the cells are then laid out as text. *)
Definition formatData (data : list (list Cell)) (format : string)
    (columns : list ColumnDefinition.t) : Process.Run string :=
  match format_of format with
  | Some f => Process.run_ret (layout f (serialize_styles f data) columns)
  | None => unsupported format
  end.

End Layout.

End DataOutput.

(** ** More sample data *)
Module MoreSamples.

Definition unreachable : Process.Error :=
  {| Process.error_kind := Process.StoreError; Process.error_message := "unreachable" |}.

(** A store that cannot be reached. *)
Definition offline : World.t :=
  {| World.getProjects := Process.Rejected unreachable;
     World.getServices := World.getServices Samples.world;
     World.getCustomers := fun _ => Process.Rejected unreachable;
     World.addTimeEntry := World.addTimeEntry Samples.world;
     World.trackerStart := World.trackerStart Samples.world;
     World.answers := World.answers Samples.world;
     World.today := World.today Samples.world;
     World.yellow_bold_dollar := World.yellow_bold_dollar Samples.world |}.

Definition customer_9 : gmap string JS.Value :=
  <[ "id"%string := JS.VNum 9 ]> (<[ "name"%string := JS.VStr "b" ]> ∅).

Definition customer_10 : gmap string JS.Value :=
  <[ "id"%string := JS.VNum 10 ]> (<[ "name"%string := JS.VStr "B" ]> ∅).

Definition by_name : MiteCustomers.Program.t :=
  {| MiteCustomers.Program.archived := JS.VNull;
     MiteCustomers.Program.columns := "id,name,rate,note";
     MiteCustomers.Program.format := "table";
     MiteCustomers.Program.search := None;
     MiteCustomers.Program.sort := Some "name"%string |}.

(** A stand-in for the text layout of lib/data-output. *)
Definition layout (format : MiteCustomers.Format) (data : list (list MiteCustomers.Cell))
    (columns : list MiteCustomers.ColumnDefinition.t) : string :=
  match format with
  | MiteCustomers.table => "table"
  | MiteCustomers.csv => "csv"
  | MiteCustomers.json => "json"
  end.

Definition unsupported (format : string) : Process.Run string :=
  Process.throw {| Process.error_kind := Process.TypeError;
                   Process.error_message := "unsupported format" |}.

Definition acme_tools_choice : MiteNew.Candidate :=
  {| MiteNew.name := "Acme Tools"; MiteNew.value := Some 2 |}.

Definition development_choice : MiteNew.Candidate :=
  {| MiteNew.name := "Development $"; MiteNew.value := Some 7 |}.

End MoreSamples.

(** ** Facts about the built-ins *)
Module JSFacts.
Import JS.

Lemma fold_push_filter {A : Type} (p : A -> bool) (l kept : list A) :
  fold_left (fun kept x => if p x then kept ++ [x] else kept) l kept
  = kept ++ List.filter p l.
Proof.
  revert kept. induction l as [|x l IH]; intros kept; simpl.
  - now rewrite app_nil_r.
  - rewrite IH. destruct (p x); simpl; [| reflexivity].
    now rewrite <- app_assoc.
Qed.

Lemma array_filter_filter {A : Type} (p : A -> bool) (l : list A) :
  array_filter p l = List.filter p l.
Proof. unfold array_filter. now rewrite fold_push_filter. Qed.

Lemma filter_selects {A : Type} (P : A -> Prop) (p : A -> bool) (l : list A) :
  (forall x, p x = true <-> P x) -> Spec.selects P l (List.filter p l).
Proof.
  intros Hp. induction l as [|x l IH]; simpl.
  - constructor.
  - destruct (p x) eqn:E.
    + apply Spec.selects_keep; [now apply Hp | exact IH].
    + apply Spec.selects_skip; [| exact IH].
      intros HP. apply Hp in HP. congruence.
Qed.

Lemma selects_functional {A : Type} (P : A -> Prop) (l o1 o2 : list A) :
  Spec.selects P l o1 -> Spec.selects P l o2 -> o1 = o2.
Proof.
  intros H1. revert o2.
  induction H1 as [|x l out Hx _ IH|x l out Hx _ IH]; intros o2 H2;
    inversion H2; subst; try contradiction; auto.
  f_equal. now apply IH.
Qed.

Lemma filter_all {A : Type} (p : A -> bool) (l : list A) :
  (forall x, p x = true) -> List.filter p l = l.
Proof.
  intros Hp. induction l as [|x l IH]; simpl; [reflexivity|].
  rewrite Hp. now f_equal.
Qed.

Lemma Value_eqb_eq (a b : Value) : Value_eqb a b = true <-> a = b.
Proof.
  destruct a, b; simpl; split; intros H; try discriminate; try reflexivity.
  - apply Bool.eqb_prop in H. now subst.
  - injection H as ->. apply Bool.eqb_reflx.
  - apply Z.eqb_eq in H. now subst.
  - injection H as ->. apply Z.eqb_refl.
  - apply String.eqb_eq in H. now subst.
  - injection H as ->. apply String.eqb_refl.
Qed.

Lemma array_indexOf_from_ge (arr : list string) (x : string) (i : Z) :
  0 <= i -> array_indexOf_from arr x i = -1 \/ i <= array_indexOf_from arr x i.
Proof.
  revert i. induction arr as [|y arr IH]; intros i Hi; simpl.
  - now left.
  - destruct (String.eqb y x); [right; lia|].
    destruct (IH (i + 1)) as [H|H]; [lia | now left | right; lia].
Qed.

Lemma array_indexOf_from_In (arr : list string) (x : string) (i : Z) :
  0 <= i -> (array_indexOf_from arr x i >? -1) = true <-> In x arr.
Proof.
  revert i. induction arr as [|y arr IH]; intros i Hi; simpl.
  - split; [discriminate | tauto].
  - destruct (String.eqb_spec y x) as [->|Hne].
    + split; [now left | intros _; apply Z.gtb_lt; lia].
    + rewrite IH by lia. split; [now right | intros [H|H]; [contradiction | exact H]].
Qed.

Lemma array_indexOf_In (arr : list string) (x : string) :
  (array_indexOf arr x >? -1) = true <-> In x arr.
Proof. apply array_indexOf_from_In. lia. Qed.

Lemma array_indexOf_not_In (arr : list string) (x : string) :
  (array_indexOf arr x =? -1) = true <-> ~ In x arr.
Proof.
  rewrite <- array_indexOf_In. unfold array_indexOf.
  destruct (array_indexOf_from_ge arr x 0) as [H|H]; [lia | |].
  - rewrite H. simpl. split; [discriminate | reflexivity].
  - split.
    + intros E. apply Z.eqb_eq in E. lia.
    + intros N. exfalso. apply N. apply Z.gtb_lt. lia.
Qed.

(** Case mappings. *)
Lemma lower_upper_char (c : ascii) : lower_char (upper_char c) = lower_char c.
Proof. destruct c as [[] [] [] [] [] [] [] []]; reflexivity. Qed.

Lemma upper_lower_char (c : ascii) : upper_char (lower_char c) = upper_char c.
Proof. destruct c as [[] [] [] [] [] [] [] []]; reflexivity. Qed.

Lemma toLowerCase_toUpperCase (s : string) : toLowerCase (toUpperCase s) = toLowerCase s.
Proof.
  induction s as [|c s IH]; simpl; [reflexivity|].
  unfold toLowerCase, toUpperCase in *. simpl. now rewrite lower_upper_char, IH.
Qed.

Lemma toUpperCase_toLowerCase (s : string) : toUpperCase (toLowerCase s) = toUpperCase s.
Proof.
  induction s as [|c s IH]; simpl; [reflexivity|].
  unfold toLowerCase, toUpperCase in *. simpl. now rewrite upper_lower_char, IH.
Qed.

Lemma upper_eq_lower_eq (s t : string) :
  toUpperCase s = toUpperCase t <-> toLowerCase s = toLowerCase t.
Proof.
  split; intros H.
  - now rewrite <- (toLowerCase_toUpperCase s), H, toLowerCase_toUpperCase.
  - now rewrite <- (toUpperCase_toLowerCase s), H, toUpperCase_toLowerCase.
Qed.

Lemma map_chars_app (f : ascii -> ascii) (s t : string) :
  map_chars f (s +:+ t) = map_chars f s +:+ map_chars f t.
Proof. induction s as [|c s IH]; simpl; [reflexivity | now rewrite IH]. Qed.

Lemma map_chars_app_inv (f : ascii -> ascii) (s x y : string) :
  map_chars f s = x +:+ y ->
  exists a b, s = a +:+ b /\ map_chars f a = x /\ map_chars f b = y.
Proof.
  revert s. induction x as [|c x IH]; intros s H; simpl in H.
  - exists EmptyString, s. auto.
  - destruct s as [|d s]; simpl in H; [discriminate|].
    injection H as Hc Hs. destruct (IH s Hs) as (a & b & -> & Ha & Hb).
    exists (String d a), b. simpl. now rewrite Hc, Ha.
Qed.

End JSFacts.

(** ** Facts about substrings *)
Module StringFacts.
Import JS.

Lemma prefix_app (sub s : string) :
  String.prefix sub s = true <-> exists after, s = sub +:+ after.
Proof.
  revert s. induction sub as [|c sub IH]; intros s; simpl.
  - destruct s; split; eauto.
  - destruct s as [|d s]; simpl.
    + split; [discriminate | intros [after H]; discriminate].
    + destruct (ascii_dec c d) as [->|Hne].
      * rewrite IH. split; intros [after H]; exists after; [now rewrite H | now injection H].
      * split; [discriminate | intros [after H]; injection H; congruence].
Qed.

Lemma indexOf_from_ge (s sub : string) (i : Z) :
  0 <= i -> indexOf_from s sub i = -1 \/ i <= indexOf_from s sub i.
Proof.
  revert i. induction s as [|c s IH]; intros i Hi; cbn [indexOf_from].
  - destruct (String.prefix sub EmptyString); [right; lia | now left].
  - destruct (String.prefix sub (String c s)); [right; lia|].
    destruct (IH (i + 1)) as [H|H]; [lia | now left | right; lia].
Qed.

Lemma indexOf_from_found (s sub : string) (i : Z) :
  0 <= i ->
  (indexOf_from s sub i >? -1) = true <->
  exists before after, s = before +:+ sub +:+ after.
Proof.
  revert i. induction s as [|c s IH]; intros i Hi.
  - cbn [indexOf_from]. destruct (String.prefix sub EmptyString) eqn:E.
    + split; [| intros _; apply Z.gtb_lt; lia].
      intros _. apply prefix_app in E as [after H]. now exists EmptyString, after.
    + split; [discriminate|].
      intros (before & after & H). destruct before; simpl in H; [| discriminate].
      assert (String.prefix sub EmptyString = true) by (apply prefix_app; eauto).
      congruence.
  - cbn [indexOf_from]. destruct (String.prefix sub (String c s)) eqn:E.
    + split; [| intros _; apply Z.gtb_lt; lia].
      intros _. apply prefix_app in E as [after H]. now exists EmptyString, after.
    + rewrite IH by lia. split.
      * intros (before & after & ->). now exists (String c before), after.
      * intros (before & after & H). destruct before as [|d before]; simpl in H.
        -- assert (String.prefix sub (String c s) = true) by (apply prefix_app; eauto).
           congruence.
        -- injection H as _ ->. eauto.
Qed.

Lemma indexOf_found (s sub : string) :
  (indexOf s sub >? -1) = true <-> exists before after, s = before +:+ sub +:+ after.
Proof. apply indexOf_from_found. lia. Qed.

Lemma indexOf_missing (s sub : string) :
  (indexOf s sub =? -1) = true <-> ~ exists before after, s = before +:+ sub +:+ after.
Proof.
  rewrite <- indexOf_found. unfold indexOf.
  destruct (indexOf_from_ge s sub 0) as [H|H]; [lia | |].
  - rewrite H. simpl. split; [discriminate | reflexivity].
  - split.
    + intros E. apply Z.eqb_eq in E. lia.
    + intros N. exfalso. apply N. apply Z.gtb_lt. lia.
Qed.

(** The test of [checkResults] on upper-cased strings is containment with
    case ignored. *)
Lemma upper_indexOf_contains (name query : string) :
  (indexOf (toUpperCase name) (toUpperCase query) >? -1) = true
  <-> Spec.contains_ignoring_case query name.
Proof.
  rewrite indexOf_found. unfold Spec.contains_ignoring_case, Spec.eq_ignoring_case.
  split.
  - intros (x & y & H). unfold toUpperCase in H.
    apply JSFacts.map_chars_app_inv in H as (before & rest & -> & Hb & Hr).
    apply JSFacts.map_chars_app_inv in Hr as (inside & after & -> & Hi & Ha).
    exists before, inside, after. split; [reflexivity|].
    now apply JSFacts.upper_eq_lower_eq.
  - intros (before & inside & after & -> & H).
    apply JSFacts.upper_eq_lower_eq in H.
    exists (toUpperCase before), (toUpperCase after).
    unfold toUpperCase in *. now rewrite !JSFacts.map_chars_app, H.
Qed.

End StringFacts.

(** ** Facts about runs *)
Module RunFacts.
Import Process.

Lemma run_bind_ret {A B : Type} (a : A) (f : A -> Run B) :
  run_bind (run_ret a) f = f a.
Proof. unfold run_bind, run_ret. now destruct (f a). Qed.

Lemma run_bind_returned {A B : Type} (a : A) (f : A -> Run B) :
  run_bind ([], Returned a) f = f a.
Proof. apply run_bind_ret. Qed.

Lemma filter_loop_pure {A : Type} (callback : A -> Run bool) (p : A -> bool)
    (arr kept : list A) :
  (forall x, callback x = run_ret (p x)) ->
  filter_loop callback arr kept = run_ret (kept ++ List.filter p arr).
Proof.
  intros Hc. revert kept. induction arr as [|x arr IH]; intros kept; simpl.
  - now rewrite app_nil_r.
  - rewrite Hc, run_bind_ret, IH. destruct (p x); [| reflexivity].
    now rewrite <- app_assoc.
Qed.

Lemma array_filterM_pure {A : Type} (callback : A -> Run bool) (p : A -> bool)
    (arr : list A) :
  (forall x, callback x = run_ret (p x)) ->
  array_filterM callback arr = run_ret (List.filter p arr).
Proof. intros Hc. unfold array_filterM. now rewrite (filter_loop_pure _ p). Qed.

Lemma forEach_emit {A : Type} (g : A -> Event) (arr : list A) :
  array_forEach (fun x => emit (g x)) arr = (map g arr, Returned tt).
Proof.
  induction arr as [|x arr IH]; simpl; [reflexivity|].
  now rewrite IH.
Qed.

End RunFacts.

(** ** The Name Resolver *)
Module ResolverFacts.
Import Process MiteNew.

Lemma name_matches_accepts (query : string) (result : Candidate) :
  name_matches (Some query) result = run_ret (Spec.accepts query result).
Proof.
  unfold name_matches, Spec.accepts. destruct (JS.string_truthy (name result)); reflexivity.
Qed.

Lemma accepts_spec (query : string) (result : Candidate) :
  Spec.accepts query result = true
  <-> name result <> EmptyString /\ Spec.contains_ignoring_case query (name result).
Proof.
  unfold Spec.accepts. rewrite andb_true_iff, StringFacts.upper_indexOf_contains.
  destruct (name result); simpl; split; intros [H1 H2]; split; try congruence; auto.
Qed.

Lemma checkResults_filter (options : list Candidate) (query type : string) :
  checkResults options (Some query) type =
  match List.filter (Spec.accepts query) options with
  | [candidate] => ([], Returned [candidate])
  | found => (Spec.failure_report type query found, Exited 1)
  end.
Proof.
  unfold checkResults.
  rewrite (RunFacts.array_filterM_pure _ (Spec.accepts query)) by apply name_matches_accepts.
  rewrite RunFacts.run_bind_ret.
  destruct (List.filter (Spec.accepts query) options) as [|c1 [|c2 found]]; try reflexivity.
  cbn [length]. unfold run_bind at 1. cbn [emit].
  rewrite RunFacts.forEach_emit. reflexivity.
Qed.

End ResolverFacts.




(** ** The Filter step *)
Module FilterFacts.
Import MiteCustomers.

Lemma filter_callback_null (program : Program.t) (customer : Record) :
  Program.archived program = JS.VNull -> filter_callback program customer = true.
Proof. intros H. unfold filter_callback. now rewrite H. Qed.

Lemma filter_callback_bool (program : Program.t) (b : bool) (customer : Record) :
  Program.archived program = JS.VBool b ->
  filter_callback program customer = true <-> get customer "archived" = JS.VBool b.
Proof.
  intros H. unfold filter_callback. rewrite H. simpl.
  unfold JS.strict_eq. apply JSFacts.Value_eqb_eq.
Qed.

End FilterFacts.

(** C3.  For every predicate [p] and record list [R] the Filter step
    ([Array.prototype.filter]) outputs exactly the records of [R] that
    satisfy [p], in their original relative order.  With the archived
    criterion unset ([null]) every record passes; with the criterion [true]
    or [false] exactly the records whose [archived] attribute is that boolean
    pass. *)
Theorem C3_filter_step (p : gmap string JS.Value -> bool) (R : list (gmap string JS.Value))
    (columns format : string) (search sort : option string) (b : bool) :
  Spec.selects (fun r => p r = true) R (JS.array_filter p R)
  /\ MiteCustomers.filter_step
       {| MiteCustomers.Program.archived := JS.VNull;
          MiteCustomers.Program.columns := columns;
          MiteCustomers.Program.format := format;
          MiteCustomers.Program.search := search;
          MiteCustomers.Program.sort := sort |} R = R
  /\ Spec.selects (fun r => MiteCustomers.get r "archived" = JS.VBool b) R
       (MiteCustomers.filter_step
          {| MiteCustomers.Program.archived := JS.VBool b;
             MiteCustomers.Program.columns := columns;
             MiteCustomers.Program.format := format;
             MiteCustomers.Program.search := search;
             MiteCustomers.Program.sort := sort |} R).
Proof.
  split; [| split].
  - rewrite JSFacts.array_filter_filter. now apply JSFacts.filter_selects.
  - unfold MiteCustomers.filter_step. rewrite JSFacts.array_filter_filter.
    apply JSFacts.filter_all. intros x. now apply FilterFacts.filter_callback_null.
  - unfold MiteCustomers.filter_step. rewrite JSFacts.array_filter_filter.
    apply JSFacts.filter_selects. intros x. now apply FilterFacts.filter_callback_bool.
Qed.

(** ** The archived option *)
Module ArchivedFacts.



End ArchivedFacts.



(** C6.  The rate formatter maps [0], [null], a missing value and every
    other falsy value to the placeholder [-], not to [0.00]; it maps the
    cents amount [1050] to [10.50]. *)
Theorem C6_rate_formatter (budget_of_non_number : JS.Value -> string) :
  MiteCustomers.rate_formatter budget_of_non_number (JS.VNum 0) = "-"%string
  /\ MiteCustomers.rate_formatter budget_of_non_number JS.VNull = "-"%string
  /\ MiteCustomers.rate_formatter budget_of_non_number JS.VUndefined = "-"%string
  /\ (forall value, JS.truthy value = false ->
        MiteCustomers.rate_formatter budget_of_non_number value = "-"%string)
  /\ MiteCustomers.rate_formatter budget_of_non_number (JS.VNum 0) <> "0.00"%string
  /\ MiteCustomers.rate_formatter budget_of_non_number (JS.VNum 1050) = "10.50"%string.
Proof.
  repeat split; try reflexivity.
  - intros value H. unfold MiteCustomers.rate_formatter. now rewrite H.
  - discriminate.
Qed.

Lemma C6_rate_formatter_witness :
  MiteCustomers.rate_formatter JS.ToString (JS.VStr EmptyString) = "-"%string.
Proof.
  apply (C6_rate_formatter JS.ToString). reflexivity.
Defined.

(** ** The Sort step *)
Module SortFacts.
Import JS.

Lemma compare_not_gt_trans (a b c : string) :
  String.compare a b <> Gt -> String.compare b c <> Gt -> String.compare a c <> Gt.
Proof.
  revert b c. induction a as [|x a IH]; intros [|y b] [|z c]; simpl; try congruence.
  unfold Ascii.compare.
  destruct (N.compare_spec (N_of_ascii x) (N_of_ascii y)) as [Exy|Lxy|Gxy];
    destruct (N.compare_spec (N_of_ascii y) (N_of_ascii z)) as [Eyz|Lyz|Gyz];
    destruct (N.compare_spec (N_of_ascii x) (N_of_ascii z)) as [Exz|Lxz|Gxz];
    try congruence; try lia.
  apply IH.
Qed.

Lemma leb_trans (a b c : string) :
  String.leb a b = true -> String.leb b c = true -> String.leb a c = true.
Proof.
  unfold String.leb. intros H1 H2.
  pose proof (compare_not_gt_trans a b c) as H.
  destruct (String.compare a b), (String.compare b c), (String.compare a c);
    try discriminate; try reflexivity; exfalso; apply H; congruence.
Qed.

Lemma compare_refl (s : string) : String.compare s s = Eq.
Proof.
  pose proof (String.compare_antisym s s) as H.
  destruct (String.compare s s); [reflexivity | discriminate H | discriminate H].
Qed.

Section Insertion.
Context {A : Type} (comparefn : A -> A -> Z) (le : A -> A -> Prop).
Hypothesis le_of_first : forall x y, (comparefn x y <=? 0) = true -> le x y.
Hypothesis le_of_second : forall x y, (comparefn x y <=? 0) = false -> le y x.
Hypothesis le_trans : forall x y z, le x y -> le y z -> le x z.

Lemma sort_insert_perm (x : A) (l : list A) :
  Permutation (x :: l) (sort_insert comparefn x l).
Proof.
  induction l as [|y l IH]; simpl; [reflexivity|].
  destruct (comparefn x y <=? 0); [reflexivity|].
  rewrite perm_swap. now apply perm_skip.
Qed.


Lemma sort_insert_sorted (x : A) (l : list A) :
  StronglySorted le l -> StronglySorted le (sort_insert comparefn x l).
Proof.
  induction 1 as [|y l Hl IH Hy]; simpl.
  - repeat constructor.
  - destruct (comparefn x y <=? 0) eqn:E.
    + constructor; [now constructor|].
      constructor; [now apply le_of_first|].
      eapply List.Forall_impl; [| exact Hy]. intros z Hz.
      eapply le_trans; [| exact Hz]. now apply le_of_first.
    + constructor; [exact IH|].
      eapply Permutation_Forall; [apply sort_insert_perm|].
      constructor; [now apply le_of_second | exact Hy].
Qed.

Lemma array_sort_sorted (l : list A) : StronglySorted le (array_sort comparefn l).
Proof.
  induction l as [|x l IH]; simpl; [constructor|].
  now apply sort_insert_sorted.
Qed.

(** A class of elements that the comparator never puts behind one of its
    own keeps its order. *)
Lemma sort_insert_class (f : A -> bool) (x : A) (l : list A) :
  (forall y, f x = true -> (comparefn x y <=? 0) = false -> f y = false) ->
  List.filter f (sort_insert comparefn x l) = List.filter f (x :: l).
Proof.
  intros Hf. induction l as [|y l IH]; [reflexivity|].
  cbn [sort_insert]. destruct (comparefn x y <=? 0) eqn:E; [reflexivity|].
  cbn [List.filter] in *. rewrite IH.
  destruct (f x) eqn:Fx; [| reflexivity].
  now rewrite (Hf y).
Qed.

Lemma array_sort_class (f : A -> bool) (l : list A) :
  (forall x y, f x = true -> (comparefn x y <=? 0) = false -> f y = false) ->
  List.filter f (array_sort comparefn l) = List.filter f l.
Proof.
  intros Hf. induction l as [|x l IH]; [reflexivity|].
  cbn [array_sort]. rewrite sort_insert_class by apply Hf.
  cbn [List.filter]. now rewrite IH.
Qed.

End Insertion.


End SortFacts.

Module ComparatorFacts.
Import MiteCustomers.

Section Configured.
Variables (archived : JS.Value) (columns format : string) (search : option string).
Variables (c : ascii) (rest : string).

Local Abbreviation sort := (String c rest).
Local Abbreviation program :=
  {| Program.archived := archived; Program.columns := columns;
     Program.format := format; Program.search := search;
     Program.sort := Some sort |}.

Lemma comparator_value (a b : Record) :
  sort_comparator program a b =
  match String.compare (Spec.key (sort_key sort) a) (Spec.key (sort_key sort) b) with
  | Gt => 1
  | Lt => -1
  | Eq => 0
  end.
Proof.
  unfold sort_comparator, sort_value, Spec.key, JS.string_gt, JS.string_lt.
  cbn [Program.sort JS.string_truthy negb].
  now destruct (String.compare _ _).
Qed.

Lemma comparator_le (a b : Record) :
  (sort_comparator program a b <=? 0) = true -> Spec.key_le (sort_key sort) a b.
Proof.
  rewrite comparator_value. unfold Spec.key_le, String.leb.
  now destruct (String.compare _ _).
Qed.


Lemma comparator_zero (a b : Record) :
  sort_comparator program a b = 0 <-> Spec.same_key (sort_key sort) a b.
Proof.
  rewrite comparator_value. unfold Spec.same_key, Spec.eq_ignoring_case.
  fold (Spec.key (sort_key sort) a) (Spec.key (sort_key sort) b).
  destruct (String.compare _ _) eqn:E.
  - apply String.compare_eq_iff in E. tauto.
  - split; [intros H; discriminate H|]. intros H. rewrite H in E.
    rewrite SortFacts.compare_refl in E. discriminate E.
  - split; [intros H; discriminate H|]. intros H. rewrite H in E.
    rewrite SortFacts.compare_refl in E. discriminate E.
Qed.

Lemma comparator_class (k : string) (a b : Record) :
  String.eqb (Spec.key (sort_key sort) a) k = true ->
  (sort_comparator program a b <=? 0) = false ->
  String.eqb (Spec.key (sort_key sort) b) k = false.
Proof.
  intros Ha Hgt. apply String.eqb_eq in Ha. apply String.eqb_neq. intros Hb.
  assert (Hz : sort_comparator program a b = 0).
  { apply comparator_zero. unfold Spec.same_key, Spec.eq_ignoring_case.
    fold (Spec.key (sort_key sort) a) (Spec.key (sort_key sort) b). congruence. }
  rewrite Hz in Hgt. discriminate.
Qed.

End Configured.

End ComparatorFacts.



(** ** The run of mite-customers *)
Module CustomersFacts.
Import Process MiteCustomers.

Lemma run_bind_exit {A B : Type} (t : list Event) (code : Z) (f : A -> Run B) :
  run_bind (t, Exited code) f = (t, Exited code).
Proof. reflexivity. Qed.

Lemma invalid_column_line_exit (names : list string) (bad : string) :
  Spec.first_unresolvable names = Some bad ->
  array_mapM resolve_column names =
  ([console_error ("Invalid column name " +:+ JS.dquote +:+ bad +:+ JS.dquote)], Exited 2).
Proof.
  induction names as [|attrName names IH]; cbn [Spec.first_unresolvable array_mapM];
    [discriminate|].
  unfold resolve_column at 1.
  destruct (COLUMNS_OPTIONS_get attrName) as [columnDefinition|].
  - intros H. rewrite RunFacts.run_bind_ret, (IH H). reflexivity.
  - intros [= ->]. reflexivity.
Qed.

Lemma all_columns_resolve (names : list string) :
  Spec.first_unresolvable names = None ->
  exists columns,
    array_mapM resolve_column names = ([], Returned columns)
    /\ length columns = length names.
Proof.
  induction names as [|attrName names IH]; cbn [Spec.first_unresolvable array_mapM].
  - intros _. now exists [].
  - unfold resolve_column at 1.
    destruct (COLUMNS_OPTIONS_get attrName) as [columnDefinition|]; [| discriminate].
    intros H. destruct (IH H) as (columns & -> & Hlen).
    exists (columnDefinition :: columns). split; [reflexivity | simpl; now rewrite Hlen].
Qed.

Lemma sort_coercion_invalid (value : string) :
  ~ In value SORT_OPTIONS ->
  sort_coercion value = ([console_error (invalid_sort_line value)], Exited 2).
Proof.
  intros H. apply JSFacts.array_indexOf_not_In in H.
  unfold sort_coercion. now rewrite H.
Qed.

Lemma sort_coercion_valid (value : string) :
  In value SORT_OPTIONS -> sort_coercion value = ([], Returned value).
Proof.
  intros H. unfold sort_coercion.
  destruct (JS.array_indexOf SORT_OPTIONS value =? -1) eqn:E; [| reflexivity].
  apply JSFacts.array_indexOf_not_In in E. contradiction.
Qed.

Lemma Forall_map_styled (s : Style) (P : Cell -> Prop) (row : list JS.Value) :
  (forall v, P (styled s v)) -> Forall P (map (styled s) row).
Proof. intros H. induction row; simpl; constructor; auto. Qed.

(** The command once the customers have arrived and the columns resolved. *)
Lemma list_customers_resolved
    (note_format : JS.Value -> Record -> JS.Value)
    (budget_of_non_number : JS.Value -> string)
    (formatData : list (list Cell) -> string -> list ColumnDefinition.t -> Run string)
    (w : World.t) (program : Program.t) (customers : list Record)
    (columns : list ColumnDefinition.t) :
  World.getCustomers w (Program.search program) = Resolved customers ->
  array_mapM resolve_column (JS.split JS.comma (Program.columns program))
  = ([], Returned columns) ->
  list_customers note_format budget_of_non_number formatData w program =
  catch
    (let* text :=
       (let '(t, o) :=
          formatData
            (tableData note_format budget_of_non_number columns
               (sort_step program (filter_step program customers)))
            (Program.format program) columns in
        (api_getCustomers (Program.search program) :: t, o)) in
     emit (console_log text))
    on_failure.
Proof.
  intros Hfetch Hcolumns. unfold list_customers.
  rewrite Hfetch. cbn [await]. unfold run_bind at 1.
  rewrite Hcolumns, RunFacts.run_bind_returned.
  destruct (formatData _ _ _) as [t [text|code|err]]; reflexivity.
Qed.

Lemma rows_marked
    (note_format : JS.Value -> Record -> JS.Value)
    (budget_of_non_number : JS.Value -> string)
    (columns : list ColumnDefinition.t) (items : list Record) :
  Forall2
    (fun item row =>
       if JS.truthy (get item "archived")
       then Forall (fun cell => dimmed cell = true) row
       else Forall (fun cell => unstyled cell = true) row)
    items (map (table_row note_format budget_of_non_number columns) items).
Proof.
  induction items as [|item items IH]; simpl; constructor; [| exact IH].
  unfold table_row. destruct (JS.truthy (get item "archived")).
  - now apply Forall_map_styled.
  - generalize (map (cell_value note_format budget_of_non_number item) columns).
    intros row. induction row; simpl; constructor; auto.
Qed.

End CustomersFacts.

(** C4 (as amended).  An invalid sort key is reported before any record is
    fetched and the process exits with code 2.  An unresolvable column name
    is reported after the records have been fetched, provided the fetch
    succeeds, and the process exits with code 2; when the fetch fails the
    failure is printed and the exit code is 1.  In the two configuration
    errors nothing is written to standard output and no grid is formatted. *)
Theorem C4_configuration_errors
    (note_format : JS.Value -> gmap string JS.Value -> JS.Value)
    (budget_of_non_number : JS.Value -> string) (config_outputFormat : string)
    (formatData : list (list MiteCustomers.Cell) -> string ->
                  list MiteCustomers.ColumnDefinition.t -> Process.Run string)
    (w : World.t) :
  let run := MiteCustomers.mite_customers note_format budget_of_non_number
               config_outputFormat formatData w in
  (forall argv value,
      MiteCustomers.Argv.sort argv = Some value ->
      ~ In value MiteCustomers.SORT_OPTIONS ->
      run argv =
      ([Process.console_error (MiteCustomers.invalid_sort_line value)], Process.Exited 2))
  /\ (forall argv program customers bad,
      MiteCustomers.parse config_outputFormat argv = ([], Process.Returned program) ->
      World.getCustomers w (MiteCustomers.Program.search program) = Process.Resolved customers ->
      Spec.first_unresolvable
        (JS.split JS.comma (MiteCustomers.Program.columns program)) = Some bad ->
      run argv =
      ([Process.api_getCustomers (MiteCustomers.Program.search program);
        Process.console_error ("Invalid column name " +:+ JS.dquote +:+ bad +:+ JS.dquote)],
       Process.Exited 2))
  /\ (forall argv program err,
      MiteCustomers.parse config_outputFormat argv = ([], Process.Returned program) ->
      World.getCustomers w (MiteCustomers.Program.search program) = Process.Rejected err ->
      run argv =
      ([Process.api_getCustomers (MiteCustomers.Program.search program);
        if JS.string_truthy (Process.error_message err)
        then Process.console_log (Process.error_message err)
        else Process.console_log_object err],
       Process.Exited 1)).
Proof.
  intros run. subst run. unfold MiteCustomers.mite_customers. repeat split.
  - intros argv value Hs Hv. unfold MiteCustomers.parse. rewrite Hs.
    now rewrite CustomersFacts.sort_coercion_invalid.
  - intros argv program customers bad Hp Hf Hb. rewrite Hp.
    rewrite (RunFacts.run_bind_ret program). unfold MiteCustomers.list_customers.
    rewrite Hf. cbn [Process.await].
    rewrite (CustomersFacts.invalid_column_line_exit _ _ Hb). reflexivity.
  - intros argv program err Hp Hf. rewrite Hp.
    rewrite (RunFacts.run_bind_ret program). unfold MiteCustomers.list_customers.
    rewrite Hf. cbn [Process.await]. reflexivity.
Qed.

Lemma C4_configuration_errors_witness :
  Samples.mite_customers Samples.world (Samples.argv None (Some "bogus"%string)) =
  ([Process.console_error (MiteCustomers.invalid_sort_line "bogus")], Process.Exited 2)
  /\ Samples.mite_customers Samples.world (Samples.argv (Some "id,bogus"%string) None) =
     ([Process.api_getCustomers None;
       Process.console_error ("Invalid column name " +:+ JS.dquote +:+ "bogus" +:+ JS.dquote)],
      Process.Exited 2).
Proof.
  pose proof (C4_configuration_errors Samples.note_format JS.ToString "table"
                Samples.formatData Samples.world) as (Hsort & Hcolumn & _).
  split.
  - apply Hsort; [reflexivity|].
    intros H. repeat (destruct H as [H|H]; [discriminate H|]). exact H.
  - apply (Hcolumn (Samples.argv (Some "id,bogus"%string) None)
             {| MiteCustomers.Program.archived := JS.VNull;
                MiteCustomers.Program.columns := "id,bogus";
                MiteCustomers.Program.format := "table";
                MiteCustomers.Program.search := None;
                MiteCustomers.Program.sort := Some "name"%string |}
             [Samples.customer_B; Samples.customer_A] "bogus"%string);
      vm_compute; reflexivity.
Defined.

(** C4 as stated fails: with the unknown column name bogus the records are
    fetched before the name is reported. *)
Lemma C4_counterexample_column_after_fetch :
  ~ Spec.config_error_contract
      (Samples.mite_customers Samples.world (Samples.argv (Some "bogus"%string) None)).
Proof.
  intros (_ & Hfetch & _). vm_compute in Hfetch. discriminate Hfetch.
Qed.

(** C7.  The grid the command hands to the serializer has the header row
    first, every cell of it bold whatever the records are, and then one row
    per listed record, every cell of which is marked for dimmed rendering
    when the record is flagged archived, whichever columns were selected (and
    none of which is styled otherwise).  Serialized as a table the command
    prints the layout of this grid, marks included; serialized as csv or json
    it prints the layout of the same contents with every mark dropped. *)
Theorem C7_style_marks
    (note_format : JS.Value -> gmap string JS.Value -> JS.Value)
    (budget_of_non_number : JS.Value -> string)
    (layout : MiteCustomers.Format -> list (list MiteCustomers.Cell) ->
              list MiteCustomers.ColumnDefinition.t -> string)
    (unsupported : string -> Process.Run string)
    (w : World.t) (program : MiteCustomers.Program.t)
    (customers : list (gmap string JS.Value))
    (columns : list MiteCustomers.ColumnDefinition.t) (format : MiteCustomers.Format) :
  World.getCustomers w (MiteCustomers.Program.search program) = Process.Resolved customers ->
  Process.array_mapM MiteCustomers.resolve_column
    (JS.split JS.comma (MiteCustomers.Program.columns program))
  = ([], Process.Returned columns) ->
  DataOutput.format_of (MiteCustomers.Program.format program) = Some format ->
  let items :=
    MiteCustomers.sort_step program (MiteCustomers.filter_step program customers) in
  let grid := MiteCustomers.tableData note_format budget_of_non_number columns items in
  grid =
    map (MiteCustomers.styled MiteCustomers.bold)
        (map MiteCustomers.ColumnDefinition.label columns)
    :: map (fun item =>
              map (if JS.truthy (MiteCustomers.get item "archived")
                   then MiteCustomers.styled MiteCustomers.grey
                   else MiteCustomers.plain)
                  (map (MiteCustomers.cell_value note_format budget_of_non_number item)
                       columns))
           items
  /\ Forall (fun cell => MiteCustomers.bolded cell = true) (hd [] grid)
  /\ Forall2
       (fun item row =>
          if JS.truthy (MiteCustomers.get item "archived")
          then Forall (fun cell => MiteCustomers.dimmed cell = true) row
          else Forall (fun cell => MiteCustomers.unstyled cell = true) row)
       items (tl grid)
  /\ MiteCustomers.list_customers note_format budget_of_non_number
       (DataOutput.formatData layout unsupported) w program =
     ([Process.api_getCustomers (MiteCustomers.Program.search program);
       Process.console_log
         (layout format
            match format with
            | MiteCustomers.table => grid
            | _ => map (map (fun cell => MiteCustomers.plain (DataOutput.content cell))) grid
            end
            columns)],
      Process.Returned tt).
Proof.
  intros Hfetch Hcolumns Hformat items grid.
  split; [| split; [| split]].
  - subst grid. unfold MiteCustomers.tableData, MiteCustomers.table_header. f_equal.
    apply map_ext. intros item. unfold MiteCustomers.table_row.
    now destruct (JS.truthy (MiteCustomers.get item "archived")).
  - subst grid. cbn [MiteCustomers.tableData hd]. unfold MiteCustomers.table_header.
    now apply CustomersFacts.Forall_map_styled.
  - subst grid. cbn [MiteCustomers.tableData tl]. apply CustomersFacts.rows_marked.
  - rewrite (CustomersFacts.list_customers_resolved _ _ _ w program customers columns
               Hfetch Hcolumns).
    unfold DataOutput.formatData. rewrite Hformat. fold items. fold grid.
    assert (Hs : MiteCustomers.serialize_styles format grid =
                 match format with
                 | MiteCustomers.table => grid
                 | _ => map (map (fun cell => MiteCustomers.plain (DataOutput.content cell)))
                            grid
                 end).
    { unfold MiteCustomers.serialize_styles. destruct format.
      - rewrite <- (map_id grid) at 2. apply map_ext. intros row.
        rewrite <- (map_id row) at 2. apply map_ext. now intros [v|st v].
      - apply map_ext. intros row. apply map_ext. now intros [v|st v].
      - apply map_ext. intros row. apply map_ext. now intros [v|st v]. }
    rewrite Hs. reflexivity.
Qed.

Lemma C7_style_marks_witness :
  MiteCustomers.list_customers Samples.note_format JS.ToString
    (DataOutput.formatData MoreSamples.layout MoreSamples.unsupported)
    Samples.world MoreSamples.by_name
  = ([Process.api_getCustomers None; Process.console_log "table"], Process.Returned tt).
Proof.
  destruct (Process.array_mapM MiteCustomers.resolve_column
              (JS.split JS.comma (MiteCustomers.Program.columns MoreSamples.by_name)))
    as [t [columns| |]] eqn:E; try (vm_compute in E; discriminate E).
  assert (Ht : t = []) by (vm_compute in E; now injection E as <- _).
  subst t.
  pose proof (C7_style_marks Samples.note_format JS.ToString MoreSamples.layout
                MoreSamples.unsupported Samples.world MoreSamples.by_name
                [Samples.customer_B; Samples.customer_A] columns MiteCustomers.table
                eq_refl E eq_refl) as (_ & _ & _ & Hrun).
  exact Hrun.
Defined.

(** ** The direct mode of mite-new *)
Module CliModeFacts.
Import Process MiteNew.

Lemma fetch_both (w : World.t) (ps : list ProjectItem) (ss : list ServiceItem) :
  World.getProjects w = Resolved ps ->
  World.getServices w = Resolved ss ->
  Promise_all (getProjectChoices w) (getServiceChoices w) =
  ([api_getProjects; api_getServices],
   Returned (project_choices ps, service_choices (World.yellow_bold_dollar w) ss)).
Proof.
  intros Hp Hs. unfold getProjectChoices, getServiceChoices. now rewrite Hp, Hs.
Qed.





End CliModeFacts.



(** ** The completion of customer update *)
Module CompletionFacts.
Import Process CustomerUpdateCompletion.

Lemma eqb_not_special (prev flag : string) :
  ~ In prev special_previous -> In flag special_previous -> String.eqb prev flag = false.
Proof.
  intros Hn Hf. apply String.eqb_neq. intros ->. contradiction.
Qed.

Lemma matches_archived_spec (line : string) :
  matches_archived line = true
  <-> exists before after, line = before +:+ "--archived" +:+ after.
Proof. apply StringFacts.indexOf_found. Qed.

End CompletionFacts.

(** C9.  For every completion request whose previous argument is none of the
    special-cased flags and whose line contains --archived, the exported
    function ends in a ReferenceError, before any customer is requested and
    without a completion list: it reads the binding customerOptions before
    the declaration of that binding has run. *)
Theorem C9_completion_reference_error (w : World.t) (prev line : string) :
  ~ In prev CustomerUpdateCompletion.special_previous ->
  (exists before after, line = before +:+ "--archived" +:+ after) ->
  CustomerUpdateCompletion.complete w prev line =
  ([], Process.Thrown
         {| Process.error_kind := Process.ReferenceError;
            Process.error_message :=
              "Cannot access 'customerOptions' before initialization" |}).
Proof.
  intros Hprev Hline. unfold CustomerUpdateCompletion.complete.
  rewrite !(CompletionFacts.eqb_not_special prev) by (assumption || (simpl; tauto)).
  apply CompletionFacts.matches_archived_spec in Hline. rewrite Hline. reflexivity.
Qed.

Lemma C9_completion_reference_error_witness :
  CustomerUpdateCompletion.complete Samples.world "update"
    "mite customer update --archived " =
  ([], Process.Thrown
         {| Process.error_kind := Process.ReferenceError;
            Process.error_message :=
              "Cannot access 'customerOptions' before initialization" |}).
Proof.
  apply (C9_completion_reference_error Samples.world "update"
           "mite customer update --archived ").
  - intros H. repeat (destruct H as [H|H]; [discriminate H|]). exact H.
  - exists "mite customer update "%string, " "%string. reflexivity.
Defined.

(** ** The candidate lists *)
Module ChoicesFacts.
Import Process MiteNew.



End ChoicesFacts.



(** ** The examples of the specification *)
Module SpecExamples.

Example resolver_ambiguous :
  snd (MiteNew.checkResults
         [{| MiteNew.name := "Acme"; MiteNew.value := Some 1 |};
          {| MiteNew.name := "Acme Corp"; MiteNew.value := Some 2 |}]
         (Some "acme"%string) "project")
  = Process.Exited 1.
Proof. reflexivity. Qed.

Example resolver_unique :
  MiteNew.checkResults
    [{| MiteNew.name := "Acme"; MiteNew.value := Some 1 |};
     {| MiteNew.name := "Acme Corp"; MiteNew.value := Some 2 |}]
    (Some "Acme Corp"%string) "project"
  = ([], Process.Returned [{| MiteNew.name := "Acme Corp"; MiteNew.value := Some 2 |}]).
Proof. reflexivity. Qed.

Example resolver_absent :
  snd (MiteNew.checkResults
         [{| MiteNew.name := "Acme"; MiteNew.value := Some 1 |};
          {| MiteNew.name := "Acme Corp"; MiteNew.value := Some 2 |}]
         (Some "zzz"%string) "project")
  = Process.Exited 1.
Proof. reflexivity. Qed.

Example listing_sorted_and_dimmed :
  let program :=
    {| MiteCustomers.Program.archived := JS.VNull;
       MiteCustomers.Program.columns := "id,name";
       MiteCustomers.Program.format := "table";
       MiteCustomers.Program.search := None;
       MiteCustomers.Program.sort := Some "name"%string |} in
  let items :=
    MiteCustomers.sort_step program
      (MiteCustomers.filter_step program [Samples.customer_B; Samples.customer_A]) in
  match Process.array_mapM MiteCustomers.resolve_column
          (JS.split JS.comma (MiteCustomers.Program.columns program)) with
  | (_, Process.Returned columns) =>
      MiteCustomers.tableData Samples.note_format JS.ToString columns items
      = [[MiteCustomers.styled MiteCustomers.bold (JS.VStr "id");
          MiteCustomers.styled MiteCustomers.bold (JS.VStr "name")];
         [MiteCustomers.styled MiteCustomers.grey (JS.VNum 2);
          MiteCustomers.styled MiteCustomers.grey (JS.VStr "A")];
         [MiteCustomers.plain (JS.VNum 1); MiteCustomers.plain (JS.VStr "B")]]
  | _ => False
  end.
Proof. vm_compute. reflexivity. Qed.

Example service_argument_missing :
  MiteNew.main Samples.world (Some "note"%string) (Some "acme t"%string) None
    (Some "30"%string) None
  = ([Process.api_getProjects; Process.api_getServices],
     Process.Thrown MiteNew.undefined_toUpperCase).
Proof. reflexivity. Qed.

End SpecExamples.

(** ** Further properties: the options of mite-customers *)
Module ColumnsFacts.
Import JS.

Lemma split_no_sep (sep : ascii) (p : string) :
  Extra.has_char sep p = false -> split sep p = [p].
Proof.
  induction p as [|d p IH]; cbn [Extra.has_char split]; [reflexivity|].
  intros H. apply orb_false_iff in H as [Hd Hp]. now rewrite Hd, (IH Hp).
Qed.

Lemma split_app (sep : ascii) (p rest : string) :
  Extra.has_char sep p = false ->
  split sep (p +:+ String sep rest) = p :: split sep rest.
Proof.
  induction p as [|d p IH]; simpl.
  - intros _. now rewrite Ascii.eqb_refl.
  - intros H. apply orb_false_iff in H as [Hd Hp]. now rewrite Hd, (IH Hp).
Qed.

Lemma split_pieces (sep : ascii) (s : string) :
  Forall (fun p => Extra.has_char sep p = false) (split sep s).
Proof.
  induction s as [|c s IH]; cbn [split].
  - repeat constructor.
  - destruct (Ascii.eqb c sep) eqn:E; [now constructor|].
    destruct (split sep s) as [|piece pieces]; [repeat constructor; simpl; now rewrite E|].
    inversion IH as [|? ? Hpiece Hpieces]; subst.
    constructor; [| exact Hpieces]. simpl. now rewrite E, Hpiece.
Qed.

Lemma split_join (l : list string) :
  l <> [] ->
  Forall (fun p => Extra.has_char comma p = false) l ->
  split comma (join "," l) = l.
Proof.
  induction l as [|p l IH]; [congruence|]. intros _ Hall.
  inversion Hall as [|? ? Hp Hl]; subst.
  destruct l as [|q l].
  - now apply split_no_sep.
  - change (join "," (p :: q :: l)) with (p +:+ String comma (join "," (q :: l))).
    rewrite (split_app comma p _ Hp). f_equal. now apply IH.
Qed.

Lemma Forall_filter {A : Type} (P : A -> Prop) (f : A -> bool) (l : list A) :
  Forall P l -> Forall P (List.filter f l).
Proof.
  induction 1 as [|x l Hx _ IH]; simpl; [constructor|].
  destruct (f x); [now constructor | exact IH].
Qed.

Lemma filter_idem {A : Type} (f : A -> bool) (l : list A) :
  List.filter f (List.filter f l) = List.filter f l.
Proof.
  induction l as [|x l IH]; simpl; [reflexivity|].
  destruct (f x) eqn:E; simpl; [now rewrite E, IH | exact IH].
Qed.

Lemma columns_coercion_join (str : string) :
  MiteCustomers.columns_coercion str = join "," (Extra.entries str).
Proof.
  unfold MiteCustomers.columns_coercion, Extra.entries.
  now rewrite JSFacts.array_filter_filter.
Qed.

Lemma split_columns_coercion (str : string) :
  split comma (MiteCustomers.columns_coercion str) =
  match Extra.entries str with
  | [] => [EmptyString]
  | found => found
  end.
Proof.
  rewrite columns_coercion_join.
  destruct (Extra.entries str) as [|e found] eqn:E; [reflexivity|].
  apply split_join; [discriminate|].
  rewrite <- E. unfold Extra.entries. apply Forall_filter, split_pieces.
Qed.

Lemma entries_columns_coercion (str : string) :
  Extra.entries (MiteCustomers.columns_coercion str) = Extra.entries str.
Proof.
  unfold Extra.entries at 1. rewrite split_columns_coercion.
  destruct (Extra.entries str) as [|e found] eqn:E; [reflexivity|].
  rewrite <- E. unfold Extra.entries. apply filter_idem.
Qed.

End ColumnsFacts.

(** X1.  The --columns coercion keeps exactly the non-empty entries of the
    given list, in their order: splitting the coerced value gives them back,
    unless there is none, in which case the coerced value is the empty string
    (which splits into one empty name).  Coercing twice changes nothing. *)
Theorem X1_columns_coercion_entries (str : string) :
  JS.split JS.comma (MiteCustomers.columns_coercion str) =
    match Extra.entries str with
    | [] => [EmptyString]
    | found => found
    end
  /\ Extra.entries (MiteCustomers.columns_coercion str) = Extra.entries str
  /\ MiteCustomers.columns_coercion (MiteCustomers.columns_coercion str)
     = MiteCustomers.columns_coercion str.
Proof.
  split; [| split].
  - apply ColumnsFacts.split_columns_coercion.
  - apply ColumnsFacts.entries_columns_coercion.
  - rewrite (ColumnsFacts.columns_coercion_join (MiteCustomers.columns_coercion str)).
    rewrite ColumnsFacts.entries_columns_coercion.
    symmetry. apply ColumnsFacts.columns_coercion_join.
Qed.

Module ParseFacts.
Import Process MiteCustomers.

Lemma parse_cases (config_outputFormat : string) (argv : Argv.t) :
  parse config_outputFormat argv =
  match Argv.sort argv with
  | Some value =>
      if JS.array_indexOf SORT_OPTIONS value =? -1
      then ([console_error (invalid_sort_line value)], Exited 2)
      else ([], Returned (Extra.parsed config_outputFormat argv value))
  | None => ([], Returned (Extra.parsed config_outputFormat argv "name"))
  end.
Proof.
  unfold parse, sort_coercion. destruct (Argv.sort argv) as [value|]; [| reflexivity].
  destruct (JS.array_indexOf SORT_OPTIONS value =? -1); reflexivity.
Qed.

Lemma sort_option_truthy (s : string) : In s SORT_OPTIONS -> JS.string_truthy s = true.
Proof.
  unfold SORT_OPTIONS. simpl. intros [<-|[<-|[<-|[<-|[<-|[<-|[]]]]]]]; reflexivity.
Qed.

Lemma valid_sort (value : string) :
  (JS.array_indexOf SORT_OPTIONS value =? -1) = false -> In value SORT_OPTIONS.
Proof.
  intros H. destruct (JSFacts.array_indexOf_In SORT_OPTIONS value) as [Hin _].
  apply Hin. apply Z.gtb_lt. apply Z.eqb_neq in H.
  destruct (JSFacts.array_indexOf_from_ge SORT_OPTIONS value 0) as [E|E];
    unfold JS.array_indexOf in *; lia.
Qed.

End ParseFacts.

(** X3.  What the option coercions leave behind.  (Command lines that
    commander ends by itself, such as --help, --version or an option without
    its value, never reach the coercions and are not covered.)  When the
    coercions return option values, nothing has been printed, the sort key is
    one of the valid names (so it is never empty and the comparator always
    compares by a key) and the archived criterion is [null], [true] or
    [false]; when they end the process, it is with exit code 2, for a sort
    key outside the valid names, after that one complaint. *)
Theorem X3_parse_invariants (config_outputFormat : string) (argv : MiteCustomers.Argv.t)
    (t : list Process.Event) (outcome : Process.Outcome MiteCustomers.Program.t) :
  MiteCustomers.parse config_outputFormat argv = (t, outcome) ->
  match outcome with
  | Process.Returned program =>
      t = []
      /\ (exists sort,
            MiteCustomers.Program.sort program = Some sort
            /\ In sort MiteCustomers.SORT_OPTIONS
            /\ JS.string_truthy sort = true)
      /\ MiteCustomers.Program.search program = MiteCustomers.Argv.search argv
      /\ (MiteCustomers.Program.archived program = JS.VNull
          \/ exists b, MiteCustomers.Program.archived program = JS.VBool b)
  | Process.Exited code =>
      code = 2
      /\ exists value,
          MiteCustomers.Argv.sort argv = Some value
          /\ ~ In value MiteCustomers.SORT_OPTIONS
          /\ t = [Process.console_error (MiteCustomers.invalid_sort_line value)]
  | Process.Thrown _ => True
  end.
Proof.
  rewrite ParseFacts.parse_cases.
  assert (Harchived : forall sort,
             MiteCustomers.Program.archived (Extra.parsed config_outputFormat argv sort)
             = JS.VNull
             \/ exists b,
                 MiteCustomers.Program.archived (Extra.parsed config_outputFormat argv sort)
                 = JS.VBool b).
  { intros sort. cbn [Extra.parsed MiteCustomers.Program.archived].
    destruct (MiteCustomers.Argv.archived argv) as [val|]; [right | now left].
    eexists. reflexivity. }
  destruct (MiteCustomers.Argv.sort argv) as [value|] eqn:Hsort.
  - destruct (JS.array_indexOf MiteCustomers.SORT_OPTIONS value =? -1) eqn:E.
    + intros [= <- <-]. split; [reflexivity|]. exists value.
      repeat split. now apply JSFacts.array_indexOf_not_In.
    + intros [= <- <-]. pose proof (ParseFacts.valid_sort value E) as Hin.
      repeat split; auto. exists value. auto using ParseFacts.sort_option_truthy.
  - intros [= <- <-]. repeat split; auto. exists "name"%string.
    repeat split; auto. simpl. tauto.
Qed.

Lemma X3_parse_invariants_witness :
  [Process.console_error (MiteCustomers.invalid_sort_line "bogus")]
  = [Process.console_error (MiteCustomers.invalid_sort_line "bogus")]
  /\ exists sort,
      MiteCustomers.Program.sort (Extra.parsed "table" (Samples.argv None None) "name")
      = Some sort
      /\ In sort MiteCustomers.SORT_OPTIONS
      /\ JS.string_truthy sort = true.
Proof.
  pose proof (X3_parse_invariants "table" (Samples.argv None (Some "bogus"%string))
                [Process.console_error (MiteCustomers.invalid_sort_line "bogus")]
                (Process.Exited 2) eq_refl) as (_ & value & Hvalue & _ & Ht).
  pose proof (X3_parse_invariants "table" (Samples.argv None None) []
                (Process.Returned (Extra.parsed "table" (Samples.argv None None) "name"))
                eq_refl) as (_ & Hsort & _).
  split; [reflexivity | exact Hsort].
Defined.

Module PipelineFacts.
Import Process MiteCustomers.

Lemma parse_returned (config_outputFormat : string) (argv : Argv.t) (program : Program.t)
    (t : list Event) :
  parse config_outputFormat argv = (t, Returned program) ->
  t = []
  /\ Program.search program = Argv.search argv
  /\ Program.columns program =
     match Argv.columns argv with
     | Some str => columns_coercion str
     | None => "id,name,rate,note"%string
     end.
Proof.
  rewrite ParseFacts.parse_cases. destruct (Argv.sort argv) as [value|].
  - destruct (JS.array_indexOf SORT_OPTIONS value =? -1); [discriminate|].
    intros [= <- <-]. repeat split.
  - intros [= <- <-]. repeat split.
Qed.

Lemma table_row_length (note_format : JS.Value -> Record -> JS.Value)
    (budget_of_non_number : JS.Value -> string)
    (columns : list ColumnDefinition.t) (item : Record) :
  length (table_row note_format budget_of_non_number columns item) = length columns.
Proof.
  unfold table_row. destruct (JS.truthy (get item "archived"));
    now rewrite !length_map.
Qed.

End PipelineFacts.

(** X2.  When every entry of the --columns value is empty (the empty value,
    a lone comma), the coerced value is the empty string, and the command
    fetches the customers and then reports the invalid column name that is
    the empty string, with exit code 2. *)
Theorem X2_empty_columns
    (note_format : JS.Value -> gmap string JS.Value -> JS.Value)
    (budget_of_non_number : JS.Value -> string) (config_outputFormat : string)
    (formatData : list (list MiteCustomers.Cell) -> string ->
                  list MiteCustomers.ColumnDefinition.t -> Process.Run string)
    (w : World.t) (argv : MiteCustomers.Argv.t) (str : string)
    (program : MiteCustomers.Program.t) (customers : list (gmap string JS.Value)) :
  MiteCustomers.Argv.columns argv = Some str ->
  Extra.entries str = [] ->
  MiteCustomers.parse config_outputFormat argv = ([], Process.Returned program) ->
  World.getCustomers w (MiteCustomers.Argv.search argv) = Process.Resolved customers ->
  MiteCustomers.mite_customers note_format budget_of_non_number config_outputFormat
    formatData w argv =
  ([Process.api_getCustomers (MiteCustomers.Argv.search argv);
    Process.console_error ("Invalid column name " +:+ JS.dquote +:+ JS.dquote)],
   Process.Exited 2).
Proof.
  intros Hcolumns Hentries Hparse Hfetch.
  destruct (PipelineFacts.parse_returned _ _ _ _ Hparse) as (_ & Hsearch & Hcols).
  rewrite Hcolumns, ColumnsFacts.columns_coercion_join, Hentries in Hcols.
  unfold MiteCustomers.mite_customers. rewrite Hparse, (RunFacts.run_bind_ret program).
  unfold MiteCustomers.list_customers. rewrite Hsearch, Hfetch, Hcols. reflexivity.
Qed.

Lemma X2_empty_columns_witness :
  Samples.mite_customers Samples.world (Samples.argv (Some ",,"%string) None) =
  ([Process.api_getCustomers None;
    Process.console_error ("Invalid column name " +:+ JS.dquote +:+ JS.dquote)],
   Process.Exited 2).
Proof.
  apply (X2_empty_columns Samples.note_format JS.ToString "table" Samples.formatData
           Samples.world (Samples.argv (Some ",,"%string) None) ",,"%string
           (Extra.parsed "table" (Samples.argv (Some ",,"%string) None) "name")
           [Samples.customer_B; Samples.customer_A]); reflexivity.
Defined.

(** X4.  When the customers arrive and every column name resolves, the
    command formats the grid made of the filtered and sorted customers and
    prints the text; nothing else is printed.  An exception of the formatting
    (an unsupported format, say) is printed and ends the process with exit
    code 1. *)
Theorem X4_listing_success
    (note_format : JS.Value -> gmap string JS.Value -> JS.Value)
    (budget_of_non_number : JS.Value -> string)
    (formatData : list (list MiteCustomers.Cell) -> string ->
                  list MiteCustomers.ColumnDefinition.t -> Process.Run string)
    (w : World.t) (program : MiteCustomers.Program.t)
    (customers : list (gmap string JS.Value))
    (columns : list MiteCustomers.ColumnDefinition.t) :
  World.getCustomers w (MiteCustomers.Program.search program) = Process.Resolved customers ->
  Process.array_mapM MiteCustomers.resolve_column
    (JS.split JS.comma (MiteCustomers.Program.columns program))
  = ([], Process.Returned columns) ->
  MiteCustomers.list_customers note_format budget_of_non_number formatData w program =
  let fetch := Process.api_getCustomers (MiteCustomers.Program.search program) in
  let items :=
    MiteCustomers.sort_step program (MiteCustomers.filter_step program customers) in
  match formatData (MiteCustomers.tableData note_format budget_of_non_number columns items)
          (MiteCustomers.Program.format program) columns with
  | (t, Process.Returned text) =>
      (fetch :: t ++ [Process.console_log text], Process.Returned tt)
  | (t, Process.Exited code) => (fetch :: t, Process.Exited code)
  | (t, Process.Thrown err) =>
      (fetch :: t ++ [if JS.string_truthy (Process.error_message err)
                      then Process.console_log (Process.error_message err)
                      else Process.console_log_object err],
       Process.Exited 1)
  end.
Proof.
  intros Hfetch Hcolumns. unfold MiteCustomers.list_customers.
  rewrite Hfetch. cbn [Process.await]. unfold Process.run_bind at 1.
  rewrite Hcolumns, RunFacts.run_bind_returned.
  destruct (formatData _ _ _) as [t [text|code|err]]; cbn; rewrite ?app_nil_r; reflexivity.
Qed.

Lemma X4_listing_success_witness :
  MiteCustomers.list_customers Samples.note_format JS.ToString Samples.formatData
    Samples.world MoreSamples.by_name
  = ([Process.api_getCustomers None; Process.console_log "table"], Process.Returned tt).
Proof.
  pose proof (X4_listing_success Samples.note_format JS.ToString Samples.formatData
                Samples.world MoreSamples.by_name [Samples.customer_B; Samples.customer_A])
    as H.
  destruct (Process.array_mapM MiteCustomers.resolve_column
              (JS.split JS.comma (MiteCustomers.Program.columns MoreSamples.by_name)))
    as [t [columns| |]] eqn:E; try (vm_compute in E; discriminate E).
  assert (Ht : t = []) by (vm_compute in E; now injection E as <- _).
  subst t. exact (H columns eq_refl eq_refl).
Defined.

(** X5.  The grid has one header row and one row per item, in the order of
    the items, and every row has one cell per column; the cells of a row are
    all dimmed when the item is archived and all unstyled when it is not. *)
Theorem X5_grid_shape
    (note_format : JS.Value -> gmap string JS.Value -> JS.Value)
    (budget_of_non_number : JS.Value -> string)
    (columns : list MiteCustomers.ColumnDefinition.t)
    (items : list (gmap string JS.Value)) (item : gmap string JS.Value) :
  length (MiteCustomers.tableData note_format budget_of_non_number columns items)
  = S (length items)
  /\ Forall (fun row => length row = length columns)
       (MiteCustomers.tableData note_format budget_of_non_number columns items)
  /\ tl (MiteCustomers.tableData note_format budget_of_non_number columns items)
     = map (MiteCustomers.table_row note_format budget_of_non_number columns) items
  /\ Forall (fun cell =>
               MiteCustomers.dimmed cell = JS.truthy (MiteCustomers.get item "archived")
               /\ MiteCustomers.unstyled cell
                  = negb (JS.truthy (MiteCustomers.get item "archived")))
       (MiteCustomers.table_row note_format budget_of_non_number columns item).
Proof.
  split; [| split; [| split]].
  - unfold MiteCustomers.tableData. simpl. now rewrite length_map.
  - unfold MiteCustomers.tableData. constructor.
    + unfold MiteCustomers.table_header. now rewrite !length_map.
    + induction items as [|i items IH]; simpl; constructor; auto.
      apply PipelineFacts.table_row_length.
  - reflexivity.
  - unfold MiteCustomers.table_row.
    destruct (JS.truthy (MiteCustomers.get item "archived"));
      induction columns as [|cd columns IH]; simpl; constructor; auto.
Qed.

(** ** Further properties: the Sort step *)
Module SortMoreFacts.
Import JS.

Section Commute.
Context {A : Type} (comparefn : A -> A -> Z) (le : A -> A -> Prop).
Hypothesis le_iff : forall x y, (comparefn x y <=? 0) = true <-> le x y.
Hypothesis le_total : forall x y, le x y \/ le y x.
Hypothesis le_trans : forall x y z, le x y -> le y z -> le x z.

Lemma le_of_second (x y : A) : (comparefn x y <=? 0) = false -> le y x.
Proof.
  intros H. destruct (le_total x y) as [Hxy|Hyx]; [| exact Hyx].
  apply le_iff in Hxy. congruence.
Qed.

Lemma sorted (l : list A) : StronglySorted le (array_sort comparefn l).
Proof.
  apply SortFacts.array_sort_sorted; [apply le_iff | apply le_of_second | apply le_trans].
Qed.

Lemma insert_head (x : A) (l : list A) :
  Forall (le x) l -> sort_insert comparefn x l = x :: l.
Proof.
  destruct l as [|y l]; [reflexivity|]. intros H. inversion H as [|? ? Hy _]; subst.
  cbn [sort_insert]. apply le_iff in Hy. now rewrite Hy.
Qed.

Lemma filter_insert (p : A -> bool) (x : A) (l : list A) :
  StronglySorted le l ->
  List.filter p (sort_insert comparefn x l) =
  if p x then sort_insert comparefn x (List.filter p l) else List.filter p l.
Proof.
  induction 1 as [|y l Hl IH Hy]; cbn [sort_insert List.filter].
  - now destruct (p x).
  - destruct (comparefn x y <=? 0) eqn:E.
    + cbn [List.filter]. destruct (p x) eqn:Px; [| reflexivity].
      symmetry. apply insert_head.
      assert (Hx : Forall (le x) (y :: l)).
      { apply le_iff in E. constructor; [exact E|].
        eapply List.Forall_impl; [| exact Hy]. intros z Hz. now apply (le_trans x y z). }
      now apply (ColumnsFacts.Forall_filter (le x) p (y :: l)).
    + cbn [List.filter]. rewrite IH.
      destruct (p y) eqn:Py; destruct (p x) eqn:Px; cbn [sort_insert]; rewrite ?E;
        reflexivity.
Qed.

Lemma filter_sort (p : A -> bool) (l : list A) :
  List.filter p (array_sort comparefn l) = array_sort comparefn (List.filter p l).
Proof.
  induction l as [|x l IH]; [reflexivity|].
  cbn [array_sort List.filter]. rewrite filter_insert by apply sorted.
  rewrite IH. now destruct (p x).
Qed.

End Commute.

(** Two lists that are sorted by the same key and agree on the order within
    every class of equal keys are the same list. *)
Section Unique.
Context {A : Type} (key : A -> string).

Local Abbreviation le := (fun x y : A => String.leb (key x) (key y) = true).
Local Abbreviation class :=
  (fun (k : string) (l : list A) => List.filter (fun r => String.eqb (key r) k) l).

Lemma class_head (x : A) (l : list A) : class (key x) (x :: l) = x :: class (key x) l.
Proof. simpl. now rewrite String.eqb_refl. Qed.

Lemma class_skip (k : string) (x : A) (l : list A) :
  key x <> k -> class k (x :: l) = class k l.
Proof.
  intros H. simpl. apply String.eqb_neq in H. now rewrite H.
Qed.

Lemma class_In (k : string) (x : A) (l rest : list A) :
  class k l = x :: rest -> In x l.
Proof.
  intros H. assert (Hin : In x (class k l)) by (rewrite H; now left).
  now apply filter_In in Hin.
Qed.

Lemma sorted_stable_unique (l1 l2 : list A) :
  StronglySorted le l1 -> StronglySorted le l2 ->
  (forall k, class k l1 = class k l2) ->
  l1 = l2.
Proof.
  intros H1. revert l2. induction H1 as [|x l1 Hl1 IH Hx]; intros l2 H2 Hclass.
  - destruct l2 as [|y l2]; [reflexivity|].
    specialize (Hclass (key y)). rewrite class_head in Hclass. discriminate.
  - destruct l2 as [|y l2].
    + specialize (Hclass (key x)). rewrite class_head in Hclass. discriminate.
    + inversion H2 as [|? ? Hl2 Hy]; subst.
      assert (Hkey : key x = key y).
      { destruct (string_dec (key x) (key y)) as [E|N]; [exact E|].
        apply String.leb_antisym.
        - pose proof (Hclass (key y)) as Hc.
          rewrite (class_skip (key y) x) in Hc by exact N. rewrite class_head in Hc.
          apply class_In in Hc. rewrite List.Forall_forall in Hx. now apply Hx.
        - pose proof (Hclass (key x)) as Hc.
          rewrite class_head, (class_skip (key x) y) in Hc by congruence.
          symmetry in Hc. apply class_In in Hc. rewrite List.Forall_forall in Hy.
          now apply Hy. }
      assert (Hxy : x = y).
      { pose proof (Hclass (key x)) as Hc. rewrite class_head, Hkey, class_head in Hc.
        now injection Hc. }
      subst y. f_equal. apply IH; [exact Hl2|].
      intros k. specialize (Hclass k).
      destruct (string_dec (key x) k) as [<-|N].
      * rewrite !class_head in Hclass. now injection Hclass.
      * now rewrite !class_skip in Hclass by exact N.
Qed.

End Unique.

End SortMoreFacts.

Module SortStepFacts.
Import MiteCustomers.

Lemma key_le_iff (archived : JS.Value) (columns format : string) (search : option string)
    (c : ascii) (rest : string) (a b : Record) :
  (sort_comparator
     {| Program.archived := archived; Program.columns := columns;
        Program.format := format; Program.search := search;
        Program.sort := Some (String c rest) |} a b <=? 0) = true
  <-> Spec.key_le (sort_key (String c rest)) a b.
Proof.
  split; [apply ComparatorFacts.comparator_le|].
  rewrite ComparatorFacts.comparator_value. unfold Spec.key_le, String.leb.
  now destruct (String.compare _ _).
Qed.

Lemma key_le_total (attribute : string) (a b : Record) :
  Spec.key_le attribute a b \/ Spec.key_le attribute b a.
Proof. apply String.leb_total. Qed.

Lemma key_le_trans (attribute : string) (a b c : Record) :
  Spec.key_le attribute a b -> Spec.key_le attribute b c -> Spec.key_le attribute a c.
Proof. apply SortFacts.leb_trans. Qed.

Lemma unconfigured (program : Program.t) :
  Program.sort program = None \/ Program.sort program = Some EmptyString ->
  forall a b, sort_comparator program a b = 0.
Proof.
  intros [H|H] a b; unfold sort_comparator; now rewrite H.
Qed.

(** Whatever the sort option is, filtering commutes with the Sort step. *)
Lemma filter_sort_step (program : Program.t) (p : Record -> bool) (l : list Record) :
  List.filter p (sort_step program l) = sort_step program (List.filter p l).
Proof.
  unfold sort_step. destruct program as [archived columns format search [[|c rest]|]].
  - apply (SortMoreFacts.filter_sort _ (fun _ _ => True)); try tauto;
      intros x y; rewrite (unconfigured _ (or_intror eq_refl)); simpl; tauto.
  - apply (SortMoreFacts.filter_sort _ (Spec.key_le (sort_key (String c rest)))).
    + apply key_le_iff.
    + apply key_le_total.
    + apply key_le_trans.
  - apply (SortMoreFacts.filter_sort _ (fun _ _ => True)); try tauto;
      intros x y; rewrite (unconfigured _ (or_introl eq_refl)); simpl; tauto.
Qed.

End SortStepFacts.

(** X6.  The outcome of the Sort step does not depend on how the engine
    sorts: any list that is ordered by the key and keeps the records of
    equal keys in the order of the input is the list the Sort step returns.
    Stated for records whose sorted attribute is in the scope of the model's
    string built-ins ([Scope.records]). *)
Theorem X6_sort_result_unique (archived : JS.Value) (columns format : string)
    (search : option string) (c : ascii) (rest : string)
    (items out : list (gmap string JS.Value)) :
  let program :=
    {| MiteCustomers.Program.archived := archived;
       MiteCustomers.Program.columns := columns;
       MiteCustomers.Program.format := format;
       MiteCustomers.Program.search := search;
       MiteCustomers.Program.sort := Some (String c rest) |} in
  let attribute := MiteCustomers.sort_key (String c rest) in
  Scope.records attribute items = true ->
  StronglySorted (Spec.key_le attribute) out ->
  Spec.stable attribute items out ->
  out = MiteCustomers.sort_step program items.
Proof.
  intros program attribute _ Hsorted Hstable.
  apply (SortMoreFacts.sorted_stable_unique (Spec.key attribute)).
  - exact Hsorted.
  - apply (SortMoreFacts.sorted (MiteCustomers.sort_comparator program)).
    + apply SortStepFacts.key_le_iff.
    + apply SortStepFacts.key_le_total.
    + apply SortStepFacts.key_le_trans.
  - intros k. cbn beta. etransitivity; [exact (Hstable k)|]. symmetry.
    unfold Spec.with_key, MiteCustomers.sort_step.
    apply SortFacts.array_sort_class. intros x y.
    apply ComparatorFacts.comparator_class.
Qed.

Lemma X6_sort_result_unique_witness :
  [Samples.customer_A; MoreSamples.customer_9; MoreSamples.customer_10]
  = MiteCustomers.sort_step
      {| MiteCustomers.Program.archived := JS.VNull;
         MiteCustomers.Program.columns := "id";
         MiteCustomers.Program.format := "table";
         MiteCustomers.Program.search := None;
         MiteCustomers.Program.sort := Some "name"%string |}
      [MoreSamples.customer_9; Samples.customer_A; MoreSamples.customer_10].
Proof.
  apply (X6_sort_result_unique JS.VNull "id" "table" None "n"%char "ame"%string).
  - reflexivity.
  - repeat first [apply SSorted_nil | apply SSorted_cons | apply List.Forall_nil
                 | apply List.Forall_cons | (vm_compute; reflexivity)].
  - intros k. unfold Spec.stable, Spec.with_key. cbn [List.filter].
    change (MiteCustomers.sort_key "name") with "name"%string.
    replace (Spec.key "name" MoreSamples.customer_9) with "b"%string
      by (vm_compute; reflexivity).
    replace (Spec.key "name" MoreSamples.customer_10) with "b"%string
      by (vm_compute; reflexivity).
    replace (Spec.key "name" Samples.customer_A) with "a"%string
      by (vm_compute; reflexivity).
    destruct (String.eqb_spec "b" k) as [Eb|Nb], (String.eqb_spec "a" k) as [Ea|Na];
      try congruence; reflexivity.
Defined.

(** X7.  The sort comparator is a consistent comparator, whatever the sort
    option is: it answers -1, 0 or 1, swapping the arguments negates the
    answer, and not-after is transitive.  So the language fixes the outcome
    of the sort. *)
Theorem X7_comparator_consistent (program : MiteCustomers.Program.t)
    (a b c : gmap string JS.Value) :
  In (MiteCustomers.sort_comparator program a b) [-1; 0; 1]
  /\ MiteCustomers.sort_comparator program b a = - MiteCustomers.sort_comparator program a b
  /\ (MiteCustomers.sort_comparator program a b <= 0 ->
      MiteCustomers.sort_comparator program b c <= 0 ->
      MiteCustomers.sort_comparator program a c <= 0).
Proof.
  destruct program as [archived columns format search [[|ch rest]|]];
    try (unfold MiteCustomers.sort_comparator; simpl; repeat split; auto; lia).
  split; [| split].
  - rewrite ComparatorFacts.comparator_value.
    destruct (String.compare _ _); simpl; auto.
  - rewrite !ComparatorFacts.comparator_value.
    rewrite (String.compare_antisym (Spec.key _ b)).
    now destruct (String.compare _ _).
  - intros H1 H2.
    pose proof (SortStepFacts.key_le_iff archived columns format search ch rest) as Hiff.
    apply Z.leb_le in H1, H2. apply Hiff in H1, H2.
    apply Z.leb_le. apply Hiff. exact (SortStepFacts.key_le_trans _ a b c H1 H2).
Qed.

Lemma X7_comparator_consistent_witness :
  MiteCustomers.sort_comparator MoreSamples.by_name
    Samples.customer_A Samples.customer_B <= 0.
Proof.
  apply (X7_comparator_consistent MoreSamples.by_name
           Samples.customer_A MoreSamples.customer_9 Samples.customer_B);
    vm_compute; discriminate.
Defined.

(** X8.  Filtering and sorting commute: the command filters first and sorts
    the rest, and sorting all customers first and filtering afterwards would
    give the same list. *)
Theorem X8_filter_sort_commute (program : MiteCustomers.Program.t)
    (customers : list (gmap string JS.Value)) :
  MiteCustomers.sort_step program (MiteCustomers.filter_step program customers)
  = MiteCustomers.filter_step program (MiteCustomers.sort_step program customers).
Proof.
  unfold MiteCustomers.filter_step. rewrite !JSFacts.array_filter_filter.
  symmetry. apply SortStepFacts.filter_sort_step.
Qed.

(** ** Further properties: the Name Resolver *)
Module ResolverMoreFacts.
Import Process MiteNew.

Lemma append_assoc (a b c : string) : (a +:+ b) +:+ c = a +:+ (b +:+ c).
Proof.
  induction a as [|x a IH]; [reflexivity|].
  change (String x ((a +:+ b) +:+ c) = String x (a +:+ b +:+ c)). now f_equal.
Qed.

Lemma upper_occurs (query name : string) :
  Spec.contains_ignoring_case query name
  <-> Extra.occurs (JS.toUpperCase query) (JS.toUpperCase name).
Proof.
  rewrite <- StringFacts.upper_indexOf_contains. apply StringFacts.indexOf_found.
Qed.

Lemma occurs_trans (a b c : string) :
  Extra.occurs a b -> Extra.occurs b c -> Extra.occurs a c.
Proof.
  intros (x & y & ->) (x' & y' & ->).
  exists (x' +:+ x), (y +:+ y'). now rewrite !append_assoc.
Qed.

Lemma contains_trans (query inner outer : string) :
  Spec.contains_ignoring_case query inner ->
  Spec.contains_ignoring_case inner outer ->
  Spec.contains_ignoring_case query outer.
Proof. rewrite !upper_occurs. apply occurs_trans. Qed.

Lemma contains_nonempty (inner outer : string) :
  inner <> EmptyString -> Spec.contains_ignoring_case inner outer -> outer <> EmptyString.
Proof.
  intros Hinner (before & inside & after & -> & E) H.
  destruct before; [| discriminate]. destruct inside; [| discriminate].
  unfold Spec.eq_ignoring_case in E. destruct inner; [congruence | discriminate].
Qed.

Lemma matching_wider (query : string) (c1 c2 : Candidate) :
  Spec.contains_ignoring_case (name c1) (name c2) ->
  Spec.matching query c1 -> Spec.matching query c2.
Proof.
  intros Hc (Hn & Hq). split.
  - now apply (contains_nonempty (name c1)).
  - now apply (contains_trans query (name c1)).
Qed.

Lemma returned_filter (options : list Candidate) (query type : string)
    (t : list Event) (r : list Candidate) :
  checkResults options (Some query) type = (t, Returned r) ->
  t = [] /\ List.filter (Spec.accepts query) options = r /\ length r = 1%nat.
Proof.
  rewrite ResolverFacts.checkResults_filter.
  destruct (List.filter (Spec.accepts query) options) as [|c [|c' found]];
    try discriminate.
  intros [= <- <-]. auto.
Qed.

Lemma filter_loop_undefined (options kept : list Candidate) :
  filter_loop (name_matches None) options kept =
  if existsb (fun c => JS.string_truthy (name c)) options
  then ([], Thrown undefined_toUpperCase)
  else ([], Returned kept).
Proof.
  revert kept. induction options as [|c options IH]; intros kept; [reflexivity|].
  cbn [filter_loop existsb]. unfold name_matches at 1.
  destruct (JS.string_truthy (name c)); [reflexivity|].
  rewrite RunFacts.run_bind_ret. apply IH.
Qed.

End ResolverMoreFacts.

(** X10.  With the query missing ([undefined]), [checkResults] throws a
    TypeError as soon as one candidate has a non-empty name, printing
    nothing; when no candidate has one it reports that nothing matches
    "undefined" and ends the process with exit code 1. *)
Theorem X10_checkResults_query_missing (options : list MiteNew.Candidate) (type : string) :
  MiteNew.checkResults options None type =
  if existsb (fun c => JS.string_truthy (MiteNew.name c)) options
  then ([], Process.Thrown MiteNew.undefined_toUpperCase)
  else ([Process.console_log
           ("No " +:+ type +:+ "s found that match " +:+ JS.dquote +:+ "undefined" +:+
            JS.dquote +:+ ".");
         Process.console_log (MiteNew.hint_line type)],
        Process.Exited 1).
Proof.
  unfold MiteNew.checkResults, Process.array_filterM.
  rewrite ResolverMoreFacts.filter_loop_undefined.
  destruct (existsb _ options); reflexivity.
Qed.

(** X11.  A candidate whose name occurs, case ignored, in the name of another
    candidate of the list cannot be selected: whatever the query,
    [checkResults] never returns it (every query that matches it matches the
    other one too). *)
Theorem X11_shadowed_candidate (options : list MiteNew.Candidate)
    (c1 c2 : MiteNew.Candidate) (query type : string) (t : list Process.Event) :
  In c1 options -> In c2 options -> c1 <> c2 ->
  Spec.contains_ignoring_case (MiteNew.name c1) (MiteNew.name c2) ->
  MiteNew.checkResults options (Some query) type <> (t, Process.Returned [c1]).
Proof.
  intros H1 H2 Hne Hc Hrun.
  apply ResolverMoreFacts.returned_filter in Hrun as (_ & Hfilter & _).
  assert (Hm1 : Spec.accepts query c1 = true).
  { assert (Hin : In c1 (List.filter (Spec.accepts query) options))
      by (rewrite Hfilter; now left).
    now apply filter_In in Hin. }
  assert (Hm2 : Spec.accepts query c2 = true).
  { apply ResolverFacts.accepts_spec.
    apply (ResolverMoreFacts.matching_wider query c1 c2 Hc).
    now apply ResolverFacts.accepts_spec. }
  assert (Hin : In c2 (List.filter (Spec.accepts query) options))
    by (apply filter_In; auto).
  rewrite Hfilter in Hin. destruct Hin as [E|[]]. congruence.
Qed.

Lemma X11_shadowed_candidate_witness :
  MiteNew.checkResults
    [{| MiteNew.name := "Acme"; MiteNew.value := Some 1 |};
     {| MiteNew.name := "Acme Corp"; MiteNew.value := Some 2 |}]
    (Some "Acme"%string) "project"
  <> ([], Process.Returned [{| MiteNew.name := "Acme"; MiteNew.value := Some 1 |}]).
Proof.
  apply (X11_shadowed_candidate
           [{| MiteNew.name := "Acme"; MiteNew.value := Some 1 |};
            {| MiteNew.name := "Acme Corp"; MiteNew.value := Some 2 |}]
           {| MiteNew.name := "Acme"; MiteNew.value := Some 1 |}
           {| MiteNew.name := "Acme Corp"; MiteNew.value := Some 2 |}).
  - now left.
  - right. now left.
  - discriminate.
  - exists EmptyString, "Acme"%string, " Corp"%string. split; reflexivity.
Defined.

(** X12.  A query that occurs in the name of the synthetic candidate never
    selects a real project or service: when [checkResults] returns at all on
    a candidate list of the creation flow, it returns the synthetic
    candidate, that is no project (no service). *)
Theorem X12_synthetic_shadows (projects : list ProjectItem) (services : list ServiceItem)
    (dollar query type : string) (t : list Process.Event) (r : list MiteNew.Candidate) :
  (Spec.matching query MiteNew.no_project ->
   MiteNew.checkResults (MiteNew.project_choices projects) (Some query) type
   = (t, Process.Returned r) ->
   r = [MiteNew.no_project])
  /\ (Spec.matching query MiteNew.no_service ->
      MiteNew.checkResults (MiteNew.service_choices dollar services) (Some query) type
      = (t, Process.Returned r) ->
      r = [MiteNew.no_service]).
Proof.
  assert (H : forall choices synthetic,
             Spec.matching query synthetic ->
             MiteNew.checkResults (choices ++ [synthetic]) (Some query) type
             = (t, Process.Returned r) ->
             r = [synthetic]).
  { intros choices synthetic Hm Hrun.
    apply ResolverMoreFacts.returned_filter in Hrun as (_ & Hfilter & Hlen).
    apply ResolverFacts.accepts_spec in Hm. fold (Spec.matching query synthetic) in Hm.
    rewrite List.filter_app in Hfilter. cbn [List.filter] in Hfilter. rewrite Hm in Hfilter.
    subst r. rewrite length_app in Hlen. cbn [length] in Hlen.
    destruct (List.filter (Spec.accepts query) choices); [reflexivity|].
    cbn [length] in Hlen. lia. }
  split; intros Hm Hrun; eapply H; eauto.
Qed.

Lemma X12_synthetic_shadows_witness :
  [MiteNew.no_project] = [MiteNew.no_project]
  /\ [MiteNew.no_service] = [MiteNew.no_service].
Proof.
  pose proof (X12_synthetic_shadows
                [{| project := Samples.acme |}] [{| service := Samples.development |}]
                "$" "(no" "project" [] [MiteNew.no_project]) as [Hp _].
  pose proof (X12_synthetic_shadows
                [{| project := Samples.acme |}] [{| service := Samples.development |}]
                "$" "(no" "service" [] [MiteNew.no_service]) as [_ Hs].
  split.
  - apply Hp; [| reflexivity].
    apply ResolverFacts.accepts_spec. vm_compute. reflexivity.
  - apply Hs; [| reflexivity].
    apply ResolverFacts.accepts_spec. vm_compute. reflexivity.
Defined.

(** X9.  A column name that [Object.prototype] lends to the catalog object
    (toString, constructor, ...) is not rejected: it resolves to a member
    without label, attribute or formatter, so its header cell is a bold
    [undefined] and its cells read the attribute named undefined. *)
Theorem X9_inherited_column_names
    (note_format : JS.Value -> gmap string JS.Value -> JS.Value)
    (budget_of_non_number : JS.Value -> string)
    (attrName : string) (item : gmap string JS.Value) :
  In attrName MiteCustomers.Object_prototype_names ->
  MiteCustomers.resolve_column attrName
  = ([], Process.Returned MiteCustomers.inherited_member)
  /\ MiteCustomers.table_header [MiteCustomers.inherited_member]
     = [MiteCustomers.styled MiteCustomers.bold JS.VUndefined]
  /\ MiteCustomers.cell_value note_format budget_of_non_number item
       MiteCustomers.inherited_member
     = MiteCustomers.get item "undefined".
Proof.
  intros Hin. split; [| split; reflexivity].
  unfold MiteCustomers.Object_prototype_names in Hin. simpl in Hin.
  repeat (destruct Hin as [<-|Hin]; [vm_compute; reflexivity|]). contradiction.
Qed.

Lemma X9_inherited_column_names_witness :
  MiteCustomers.resolve_column "toString"
  = ([], Process.Returned MiteCustomers.inherited_member).
Proof.
  apply (X9_inherited_column_names Samples.note_format JS.ToString "toString"
           Samples.customer_A).
  simpl. tauto.
Defined.

(** ** Further properties: creating a time entry *)
Module MainFacts.
Import Process MiteNew.

Lemma cliMode_resolved (w : World.t) (project service : string) (p s : Candidate)
    (note minutes date : option string) :
  Extra.resolves w project service p s ->
  cliMode w note (Some project) (Some service) minutes date =
  (Extra.fetches, Returned (Extra.direct_entry w p s note minutes date)).
Proof.
  intros (ps & ss & Hps & Hss & Hp & Hs). unfold cliMode.
  rewrite (CliModeFacts.fetch_both w ps ss Hps Hss). unfold run_bind at 1.
  rewrite Hp, RunFacts.run_bind_returned, Hs, RunFacts.run_bind_returned.
  reflexivity.
Qed.

Lemma note_kept (note : option string) :
  (if arg_truthy note then note else note) = note.
Proof. now destruct (arg_truthy note). Qed.

Lemma length_append_plus (m : string) :
  String.length (m +:+ "+") = S (String.length m).
Proof. induction m as [|c m IH]; simpl; [reflexivity | now rewrite IH]. Qed.

Lemma substring_last (m : string) :
  String.substring (String.length m) 1 (m +:+ "+") = "+"%string.
Proof. induction m as [|c m IH]; simpl; [reflexivity | exact IH]. Qed.

Lemma last_char_plus (m : string) : last_char (m +:+ "+") = "+"%string.
Proof.
  unfold last_char. rewrite length_append_plus. simpl. rewrite Nat.sub_0_r.
  apply substring_last.
Qed.

Lemma without_last_char_plus (m : string) : without_last_char (m +:+ "+") = m.
Proof.
  unfold without_last_char. rewrite length_append_plus. simpl. rewrite Nat.sub_0_r.
  induction m as [|c m IH]; simpl; [reflexivity | now rewrite IH].
Qed.

Lemma plus_truthy (m : string) : arg_truthy (Some (m +:+ "+")) = true.
Proof. now destruct m. Qed.

Lemma last_char_cons (c d : ascii) (m : string) :
  last_char (String c (String d m)) = last_char (String d m).
Proof. unfold last_char. simpl. now rewrite Nat.sub_0_r. Qed.

Lemma last_char_plus_inv (m : string) :
  last_char m = "+"%string -> exists m', m = m' +:+ "+".
Proof.
  induction m as [|c m IH]; [discriminate|].
  destruct m as [|d m].
  - unfold last_char. simpl. intros [= ->]. now exists EmptyString.
  - rewrite last_char_cons. intros H. destruct (IH H) as [m' ->].
    now exists (String c m').
Qed.

(** What [main] does once the entry has been handed to the store. *)
Lemma main_direct (w : World.t) (c : ascii) (rest service : string) (p s : Candidate)
    (note minutes date : option string) :
  Extra.resolves w (String c rest) service p s ->
  main w note (Some (String c rest)) (Some service) minutes date =
  let entry := Extra.direct_entry w p s note minutes date in
  if negb (arg_truthy minutes) then
    (Extra.fetches
       ++ [console_log "no time entry created due to empty project id or empty minutes"],
     Returned tt)
  else
    let startTracker := String.eqb (last_char (arg_text minutes)) "+" in
    let sent :=
      if startTracker
      then Extra.direct_entry w p s note (Some (without_last_char (arg_text minutes))) date
      else entry in
    match World.addTimeEntry w sent with
    | data_error error =>
        (Extra.fetches
           ++ [api_addTimeEntry sent;
               console_error ("Error while creating new time entry: " +:+ error)],
         Exited 1)
    | data_time_entry id =>
        if startTracker then
          match World.trackerStart w id with
          | Resolved _ =>
              (Extra.fetches
                 ++ [api_addTimeEntry sent; console_log (created_line id);
                     tracker_start id; console_log (started_line id)],
               Returned tt)
          | Rejected err =>
              (Extra.fetches
                 ++ [api_addTimeEntry sent; console_log (created_line id);
                     tracker_start id;
                     console_log (not_started_line id (error_message err))],
               Exited 1)
          end
        else
          (Extra.fetches ++ [api_addTimeEntry sent; console_log (created_line id)],
           Returned tt)
    end.
Proof.
  intros Hres. unfold main. cbn [arg_truthy JS.string_truthy negb].
  rewrite (cliMode_resolved w (String c rest) service p s note minutes date Hres).
  unfold run_bind at 1.
  cbn [Extra.direct_entry Process.note Process.minutes Process.project_id
       Process.service_id Process.date_at].
  rewrite note_kept.
  destruct (arg_truthy minutes); cbn [negb]; [| reflexivity].
  destruct (String.eqb (last_char (arg_text minutes)) "+").
  - unfold Extra.direct_entry.
    destruct (World.addTimeEntry w _) as [error|id]; [reflexivity|].
    destruct (World.trackerStart w id); reflexivity.
  - unfold Extra.direct_entry.
    destruct (World.addTimeEntry w _) as [error|id]; reflexivity.
Qed.

End MainFacts.

(** X13.  In the direct mode, when project and service resolve but the
    minutes are missing or empty, the command prints that no time entry was
    created, sends nothing to the store and ends normally. *)
Theorem X13_no_minutes_no_entry (w : World.t) (c : ascii) (rest service : string)
    (p s : MiteNew.Candidate) (note minutes date : option string) :
  Extra.resolves w (String c rest) service p s ->
  MiteNew.arg_truthy minutes = false ->
  MiteNew.main w note (Some (String c rest)) (Some service) minutes date =
  (Extra.fetches
     ++ [Process.console_log
           "no time entry created due to empty project id or empty minutes"],
   Process.Returned tt).
Proof.
  intros Hres Hmin. rewrite (MainFacts.main_direct w c rest service p s) by exact Hres.
  cbn zeta. now rewrite Hmin.
Qed.

Lemma X13_no_minutes_no_entry_witness :
  MiteNew.main Samples.world None (Some "acme t"%string) (Some "dev"%string)
    (Some EmptyString) None =
  (Extra.fetches
     ++ [Process.console_log
           "no time entry created due to empty project id or empty minutes"],
   Process.Returned tt).
Proof.
  apply (X13_no_minutes_no_entry Samples.world "a"%char "cme t"%string "dev"%string
           MoreSamples.acme_tools_choice MoreSamples.development_choice).
  - exists [{| project := Samples.acme |}; {| project := Samples.acme_tools |}],
           [{| service := Samples.development |}].
    repeat split; reflexivity.
  - reflexivity.
Defined.

(** X14.  Minutes that end with a plus sign: the entry is sent with the
    minutes before the sign (the empty string when the minutes are the sign
    alone), and once the store has created the entry the tracker is started
    for its id; when the tracker cannot be started the process ends with exit
    code 1 although the entry exists.  A store error ends it with exit code 1
    before any tracker call. *)
Theorem X14_plus_starts_tracker (w : World.t) (c : ascii) (rest service m : string)
    (p s : MiteNew.Candidate) (note date : option string) :
  Extra.resolves w (String c rest) service p s ->
  MiteNew.main w note (Some (String c rest)) (Some service) (Some (m +:+ "+")) date =
  let sent := Extra.direct_entry w p s note (Some m) date in
  match World.addTimeEntry w sent with
  | data_error error =>
      (Extra.fetches
         ++ [Process.api_addTimeEntry sent;
             Process.console_error ("Error while creating new time entry: " +:+ error)],
       Process.Exited 1)
  | data_time_entry id =>
      match World.trackerStart w id with
      | Process.Resolved _ =>
          (Extra.fetches
             ++ [Process.api_addTimeEntry sent;
                 Process.console_log (MiteNew.created_line id);
                 Process.tracker_start id;
                 Process.console_log (MiteNew.started_line id)],
           Process.Returned tt)
      | Process.Rejected err =>
          (Extra.fetches
             ++ [Process.api_addTimeEntry sent;
                 Process.console_log (MiteNew.created_line id);
                 Process.tracker_start id;
                 Process.console_log
                   (MiteNew.not_started_line id (Process.error_message err))],
           Process.Exited 1)
      end
  end.
Proof.
  intros Hres. rewrite (MainFacts.main_direct w c rest service p s) by exact Hres.
  cbn zeta. rewrite MainFacts.plus_truthy. cbn [negb MiteNew.arg_text].
  rewrite MainFacts.last_char_plus, MainFacts.without_last_char_plus.
  reflexivity.
Qed.

Lemma X14_plus_starts_tracker_witness :
  MiteNew.main Samples.world None (Some "acme t"%string) (Some "dev"%string)
    (Some "+"%string) None =
  (Extra.fetches
     ++ [Process.api_addTimeEntry
           {| Process.project_id := Some 2; Process.note := None;
              Process.minutes := Some EmptyString; Process.service_id := Some 7;
              Process.date_at := "2020-01-01" |};
         Process.console_log (MiteNew.created_line 99);
         Process.tracker_start 99;
         Process.console_log (MiteNew.started_line 99)],
   Process.Returned tt).
Proof.
  apply (X14_plus_starts_tracker Samples.world "a"%char "cme t"%string "dev"%string
           EmptyString MoreSamples.acme_tools_choice MoreSamples.development_choice).
  exists [{| project := Samples.acme |}; {| project := Samples.acme_tools |}],
         [{| service := Samples.development |}].
  repeat split; reflexivity.
Defined.

(** X15.  Minutes that are not empty and do not end with a plus sign: the
    entry is sent with the minutes as given (they are not checked to be a
    number) and the tracker is never started; a store error ends the process
    with exit code 1. *)
Theorem X15_plain_minutes (w : World.t) (c : ascii) (rest service m : string)
    (p s : MiteNew.Candidate) (note date : option string) :
  Extra.resolves w (String c rest) service p s ->
  m <> EmptyString ->
  (forall m', m <> m' +:+ "+") ->
  MiteNew.main w note (Some (String c rest)) (Some service) (Some m) date =
  let sent := Extra.direct_entry w p s note (Some m) date in
  match World.addTimeEntry w sent with
  | data_error error =>
      (Extra.fetches
         ++ [Process.api_addTimeEntry sent;
             Process.console_error ("Error while creating new time entry: " +:+ error)],
       Process.Exited 1)
  | data_time_entry id =>
      (Extra.fetches
         ++ [Process.api_addTimeEntry sent; Process.console_log (MiteNew.created_line id)],
       Process.Returned tt)
  end.
Proof.
  intros Hres Hne Hplus. rewrite (MainFacts.main_direct w c rest service p s) by exact Hres.
  cbn zeta. assert (Ht : MiteNew.arg_truthy (Some m) = true) by (destruct m; [congruence | reflexivity]).
  rewrite Ht. cbn [negb MiteNew.arg_text].
  destruct (String.eqb_spec (MiteNew.last_char m) "+") as [E|_]; [| reflexivity].
  exfalso. apply MainFacts.last_char_plus_inv in E as [m' E]. now apply (Hplus m').
Qed.

Lemma X15_plain_minutes_witness :
  MiteNew.main Samples.world None (Some "acme t"%string) (Some "dev"%string)
    (Some "x"%string) None =
  (Extra.fetches
     ++ [Process.api_addTimeEntry
           {| Process.project_id := Some 2; Process.note := None;
              Process.minutes := Some "x"%string; Process.service_id := Some 7;
              Process.date_at := "2020-01-01" |};
         Process.console_log (MiteNew.created_line 99)],
   Process.Returned tt).
Proof.
  apply (X15_plain_minutes Samples.world "a"%char "cme t"%string "dev"%string
           "x"%string MoreSamples.acme_tools_choice MoreSamples.development_choice).
  - exists [{| project := Samples.acme |}; {| project := Samples.acme_tools |}],
           [{| service := Samples.development |}].
    repeat split; reflexivity.
  - discriminate.
  - intros [|d [|e m']]; discriminate.
Defined.

(** X18.  When one of the two lists (projects, services) cannot be fetched,
    the command, in the interactive mode and in the direct mode alike, has
    issued both requests and ends with that rejection: nothing is printed, no
    question is asked and nothing is sent to the store. *)
Theorem X18_fetch_failure (w : World.t) (note project service minutes date : option string)
    (err : Process.Error) :
  (World.getProjects w = Process.Rejected err
   /\ exists ss, World.getServices w = Process.Resolved ss)
  \/ (World.getServices w = Process.Rejected err
      /\ exists ps, World.getProjects w = Process.Resolved ps) ->
  MiteNew.main w note project service minutes date = (Extra.fetches, Process.Thrown err).
Proof.
  intros H. unfold MiteNew.main, MiteNew.interactiveMode, MiteNew.cliMode,
    MiteNew.getProjectChoices, MiteNew.getServiceChoices.
  destruct H as [(Hp & ss & Hs)|(Hs & ps & Hp)]; rewrite Hp, Hs;
    destruct (negb (MiteNew.arg_truthy project)); reflexivity.
Qed.

Lemma X18_fetch_failure_witness :
  MiteNew.main MoreSamples.offline None (Some "acme"%string) (Some "dev"%string)
    (Some "30"%string) None
  = (Extra.fetches, Process.Thrown MoreSamples.unreachable).
Proof.
  apply (X18_fetch_failure MoreSamples.offline). left.
  split; [reflexivity | eexists; reflexivity].
Defined.

(** ** Further properties: the completion of customer update *)
Module CompletionMoreFacts.
Import Process CustomerUpdateCompletion.

Lemma not_matches_archived (line : string) :
  matches_archived line = false -> ~ Extra.occurs "--archived" line.
Proof.
  intros H Hocc. apply CompletionFacts.matches_archived_spec in Hocc. congruence.
Qed.

Lemma kept_option (line : string) (option : Option) :
  (JS.indexOf line (name option) =? -1) = true <-> ~ Extra.occurs (name option) line.
Proof. apply StringFacts.indexOf_missing. Qed.

Lemma complete_throws (w : World.t) (prev line : string) :
  ~ In prev special_previous ->
  matches_archived line = true ->
  snd (complete w prev line) =
  Thrown {| error_kind := ReferenceError;
            error_message := "Cannot access 'customerOptions' before initialization" |}.
Proof.
  intros Hprev Hline. unfold complete.
  rewrite !(CompletionFacts.eqb_not_special prev) by (assumption || (simpl; tauto)).
  now rewrite Hline.
Qed.

Lemma complete_options (w : World.t) (prev line : string) :
  ~ In prev special_previous ->
  matches_archived line = false ->
  complete w prev line =
  match World.getCustomers w None with
  | Resolved customers =>
      ([api_getCustomers None],
       Returned (map described (map customer_option customers)
                 ++ map described
                      (List.filter (fun option => JS.indexOf line (name option) =? -1)
                         defaults)))
  | Rejected err => ([api_getCustomers None], Thrown err)
  end.
Proof.
  intros Hprev Hline. unfold complete.
  rewrite !(CompletionFacts.eqb_not_special prev) by (assumption || (simpl; tauto)).
  rewrite Hline, JSFacts.array_filter_filter.
  destruct (World.getCustomers w None); reflexivity.
Qed.

End CompletionMoreFacts.

(** X16.  Whenever the completion answers with options (the previous
    argument being none of the special-cased flags), it has asked the store
    for all customers without any filter, and the list holds the customers
    first and then exactly the flags that do not occur in the line yet, among
    them always --archived. *)
Theorem X16_completion_options (w : World.t) (prev line : string)
    (t : list Process.Event) (l : list CustomerUpdateCompletion.Completion) :
  ~ In prev CustomerUpdateCompletion.special_previous ->
  CustomerUpdateCompletion.complete w prev line = (t, Process.Returned l) ->
  exists customers options,
    World.getCustomers w None = Process.Resolved customers
    /\ t = [Process.api_getCustomers None]
    /\ l = map CustomerUpdateCompletion.described
             (map CustomerUpdateCompletion.customer_option customers)
           ++ map CustomerUpdateCompletion.described options
    /\ Spec.selects
         (fun option => ~ Extra.occurs (CustomerUpdateCompletion.name option) line)
         CustomerUpdateCompletion.defaults options
    /\ In Extra.archived_default options.
Proof.
  intros Hprev Hrun.
  destruct (CustomerUpdateCompletion.matches_archived line) eqn:Hline.
  - pose proof (CompletionMoreFacts.complete_throws w prev line Hprev Hline) as Hthrow.
    rewrite Hrun in Hthrow. discriminate Hthrow.
  - rewrite (CompletionMoreFacts.complete_options w prev line Hprev Hline) in Hrun.
    destruct (World.getCustomers w None) as [customers|err]; [| discriminate Hrun].
    injection Hrun as <- <-.
    exists customers,
      (List.filter
         (fun option => JS.indexOf line (CustomerUpdateCompletion.name option) =? -1)
         CustomerUpdateCompletion.defaults).
    repeat split.
    + apply JSFacts.filter_selects. intros option.
      apply CompletionMoreFacts.kept_option.
    + apply filter_In. split; [now left|].
      apply (CompletionMoreFacts.kept_option line Extra.archived_default).
      now apply CompletionMoreFacts.not_matches_archived.
Qed.

Lemma X16_completion_options_witness :
  exists customers options,
    World.getCustomers Samples.world None = Process.Resolved customers
    /\ [Process.api_getCustomers None] = [Process.api_getCustomers None]
    /\ map CustomerUpdateCompletion.described
         (map CustomerUpdateCompletion.customer_option
            [Samples.customer_B; Samples.customer_A])
       ++ map CustomerUpdateCompletion.described
            (List.filter
               (fun option =>
                  JS.indexOf "mite customer update --name x "
                    (CustomerUpdateCompletion.name option) =? -1)
               CustomerUpdateCompletion.defaults)
       = map CustomerUpdateCompletion.described
           (map CustomerUpdateCompletion.customer_option customers)
         ++ map CustomerUpdateCompletion.described options
    /\ Spec.selects
         (fun option =>
            ~ Extra.occurs (CustomerUpdateCompletion.name option)
                "mite customer update --name x ")
         CustomerUpdateCompletion.defaults options
    /\ In Extra.archived_default options.
Proof.
  apply (X16_completion_options Samples.world "update" "mite customer update --name x ").
  - intros H. repeat (destruct H as [H|H]; [discriminate H|]). exact H.
  - vm_compute. reflexivity.
Defined.

(** ** Further properties: updating a customer *)

(** X17.  The update sent to the store holds the archived flag exactly when
    --archived was given (always as a boolean), the name exactly when --name
    was given and the note exactly when --note was given, an empty text
    included; it holds nothing else.  The update is sent even when no option
    was given (with no field at all), and a rejection ends the process with
    exit code 1. *)
Theorem X17_update_data
    (updateCustomer : string -> gmap string JS.Value -> Process.Response unit)
    (archived name note : option string) (customerId key : string) :
  let data := MiteCustomerUpdateAction.data archived name note in
  data !! "archived"%string =
    match archived with
    | Some val =>
        Some (JS.VBool (JS.array_indexOf Spec.truthy_tokens (JS.toLowerCase val) >? -1))
    | None => None
    end
  /\ data !! "name"%string =
     match name with Some text => Some (JS.VStr text) | None => None end
  /\ data !! "note"%string =
     match note with Some text => Some (JS.VStr text) | None => None end
  /\ (key = "archived"%string \/ key = "name"%string \/ key = "note"%string
      \/ data !! key = None)
  /\ MiteCustomerUpdateAction.action updateCustomer archived name note customerId =
     match updateCustomer customerId data with
     | Process.Resolved _ =>
         ([MiteCustomerUpdateAction.api_updateCustomer customerId data;
           MiteCustomerUpdateAction.console_log
             ("Successfully updated customer (id: " +:+ customerId +:+ ")")],
          Process.Returned tt)
     | Process.Rejected err =>
         ([MiteCustomerUpdateAction.api_updateCustomer customerId data;
           MiteCustomerUpdateAction.console_error
             ("Error while updateing customer (id: " +:+ customerId +:+ ")") err],
          Process.Exited 1)
     end.
Proof.
  intros data. subst data. unfold MiteCustomerUpdateAction.data.
  repeat match goal with |- _ /\ _ => split end.
  - destruct archived as [val|], name, note; cbn [MiteCustomerUpdate.program_archived
      MiteCustomerUpdate.archived_coercion];
      rewrite ?lookup_insert_ne by discriminate;
      rewrite ?lookup_insert_eq, ?lookup_empty; reflexivity.
  - destruct archived as [val|], name, note; cbn [MiteCustomerUpdate.program_archived
      MiteCustomerUpdate.archived_coercion];
      rewrite ?lookup_insert_ne by discriminate;
      rewrite ?lookup_insert_eq, ?lookup_insert_ne by discriminate;
      rewrite ?lookup_insert_eq, ?lookup_empty; reflexivity.
  - destruct archived as [val|], name, note; cbn [MiteCustomerUpdate.program_archived
      MiteCustomerUpdate.archived_coercion];
      rewrite ?lookup_insert_eq, ?lookup_insert_ne by discriminate;
      rewrite ?lookup_insert_eq, ?lookup_insert_ne by discriminate;
      rewrite ?lookup_insert_eq, ?lookup_empty; reflexivity.
  - destruct (string_dec key "archived") as [->|Na]; [now left|].
    destruct (string_dec key "name") as [->|Nn]; [right; now left|].
    destruct (string_dec key "note") as [->|No]; [right; right; now left|].
    right. right. right.
    destruct archived as [val|], name, note; cbn [MiteCustomerUpdate.program_archived
      MiteCustomerUpdate.archived_coercion];
      rewrite ?lookup_insert_ne by congruence; apply lookup_empty.
  - reflexivity.
Qed.

(** ** Further properties: the catalog and the candidate names *)
Module CatalogFacts.
Import MiteNew.

Lemma contains_prefix (name rest : string) :
  Spec.contains_ignoring_case name (name +:+ rest).
Proof. exists EmptyString, name, rest. split; reflexivity. Qed.

Lemma append_empty (name : string) : name +:+ EmptyString = name.
Proof.
  induction name as [|c name IH]; [reflexivity|].
  change (String c (name +:+ EmptyString) = String c name). now f_equal.
Qed.

Lemma contains_itself (name : string) : Spec.contains_ignoring_case name name.
Proof.
  exists EmptyString, name, EmptyString. split; [| reflexivity].
  change (name = name +:+ EmptyString). symmetry. apply append_empty.
Qed.

Lemma append_nonempty (name rest : string) :
  name <> EmptyString -> name +:+ rest <> EmptyString.
Proof. destruct name; [congruence | discriminate]. Qed.

Lemma project_choice_matches (p : Project.t) :
  Project.name p <> EmptyString ->
  Spec.matching (Project.name p) (project_choice p).
Proof.
  intros Hne. unfold Spec.matching, project_choice.
  destruct (Project.customer_name p) as [[|c rest]|]; cbn [name JS.join String.concat
    JS.string_truthy app].
  - split; [exact Hne | apply contains_itself].
  - split; [now apply append_nonempty | apply contains_prefix].
  - split; [exact Hne | apply contains_itself].
Qed.

Lemma service_choice_matches (dollar : string) (s : Service.t) :
  Service.name s <> EmptyString ->
  Spec.matching (Service.name s) (service_choice dollar s).
Proof.
  intros Hne. unfold Spec.matching, service_choice.
  destruct (Service.billable s); cbn [name JS.join String.concat app].
  - split; [now apply append_nonempty | apply contains_prefix].
  - split; [exact Hne | apply contains_itself].
Qed.

Lemma found_not_reported_missing (choices : list Candidate) (c : Candidate)
    (query type : string) :
  In c choices -> Spec.matching query c ->
  checkResults choices (Some query) type
  <> (Spec.failure_report type query [], Process.Exited 1).
Proof.
  intros Hin Hm. rewrite ResolverFacts.checkResults_filter.
  assert (Hf : In c (List.filter (Spec.accepts query) choices)).
  { apply filter_In. split; [exact Hin | now apply ResolverFacts.accepts_spec]. }
  destruct (List.filter (Spec.accepts query) choices) as [|c1 [|c2 found]].
  - destruct Hf.
  - discriminate.
  - unfold Spec.failure_report, no_match_line, multiple_line. simpl. discriminate.
Qed.

End CatalogFacts.

(** X19.  Typing the name of an existing project (service) as the query
    always finds it: when the name is not empty, its candidate is in the match
    set, so the command never reports that nothing matched; it returns the
    candidate or lists several matches. *)
Theorem X19_own_name_is_found (projects : list ProjectItem) (services : list ServiceItem)
    (dollar type : string) (p : ProjectItem) (s : ServiceItem) :
  (In p projects -> Project.name (project p) <> EmptyString ->
   Spec.matching (Project.name (project p)) (MiteNew.project_choice (project p))
   /\ MiteNew.checkResults (MiteNew.project_choices projects)
        (Some (Project.name (project p))) type
      <> (Spec.failure_report type (Project.name (project p)) [], Process.Exited 1))
  /\ (In s services -> Service.name (service s) <> EmptyString ->
      Spec.matching (Service.name (service s))
        (MiteNew.service_choice dollar (service s))
      /\ MiteNew.checkResults (MiteNew.service_choices dollar services)
           (Some (Service.name (service s))) type
         <> (Spec.failure_report type (Service.name (service s)) [], Process.Exited 1)).
Proof.
  split; intros Hin Hne.
  - pose proof (CatalogFacts.project_choice_matches (project p) Hne) as Hm.
    split; [exact Hm|].
    apply (CatalogFacts.found_not_reported_missing _ (MiteNew.project_choice (project p)));
      [| exact Hm].
    unfold MiteNew.project_choices. apply in_or_app. left.
    rewrite map_map. apply in_map_iff. now exists p.
  - pose proof (CatalogFacts.service_choice_matches dollar (service s) Hne) as Hm.
    split; [exact Hm|].
    apply (CatalogFacts.found_not_reported_missing _
             (MiteNew.service_choice dollar (service s))); [| exact Hm].
    unfold MiteNew.service_choices. apply in_or_app. left.
    rewrite map_map. apply in_map_iff. now exists s.
Qed.

Lemma X19_own_name_is_found_witness :
  Spec.matching "Acme" (MiteNew.project_choice Samples.acme)
  /\ Spec.matching "Development" (MiteNew.service_choice "$" Samples.development).
Proof.
  pose proof (X19_own_name_is_found
                [{| project := Samples.acme |}; {| project := Samples.acme_tools |}]
                [{| service := Samples.development |}] "$" "project"
                {| project := Samples.acme |} {| service := Samples.development |})
    as [Hp Hs].
  split.
  - apply Hp; [now left | discriminate].
  - apply Hs; [now left | discriminate].
Defined.

(** X20.  The catalog and the pipeline fit: every column of the default list
    id,name,rate,note resolves; a column without formatter shows the raw
    attribute of its own name; the rate column reads the attribute
    hourly_rate and shows the placeholder [-] when that attribute is missing,
    [null] or [0]. *)
Theorem X20_catalog_cells
    (note_format : JS.Value -> gmap string JS.Value -> JS.Value)
    (budget_of_non_number : JS.Value -> string)
    (attrName : string) (item : gmap string JS.Value) :
  Spec.first_unresolvable (JS.split JS.comma "id,name,rate,note") = None
  /\ (In attrName ["created_at"; "id"; "name"; "updated_at"]%string ->
      exists columnDefinition,
        MiteCustomers.resolve_column attrName = ([], Process.Returned columnDefinition)
        /\ MiteCustomers.cell_value note_format budget_of_non_number item columnDefinition
           = MiteCustomers.get item attrName)
  /\ (exists columnDefinition,
        MiteCustomers.resolve_column "rate" = ([], Process.Returned columnDefinition)
        /\ MiteCustomers.cell_value note_format budget_of_non_number item columnDefinition
           = JS.VStr (MiteCustomers.rate_formatter budget_of_non_number
                        (MiteCustomers.get item "hourly_rate"))
        /\ (JS.truthy (MiteCustomers.get item "hourly_rate") = false ->
            MiteCustomers.cell_value note_format budget_of_non_number item columnDefinition
            = JS.VStr "-")).
Proof.
  split; [vm_compute; reflexivity | split].
  - simpl. intros [<-|[<-|[<-|[<-|[]]]]]; eexists;
      (split; [vm_compute; reflexivity | reflexivity]).
  - eexists. split; [vm_compute; reflexivity|]. split; [reflexivity|].
    intros H. unfold MiteCustomers.cell_value. cbn [MiteCustomers.ColumnDefinition.format
      MiteCustomers.ColumnDefinition.attribute JS.ToString MiteCustomers.apply_format].
    unfold MiteCustomers.rate_formatter. now rewrite H.
Qed.

Lemma X20_catalog_cells_witness :
  exists columnDefinition,
    MiteCustomers.resolve_column "id" = ([], Process.Returned columnDefinition)
    /\ MiteCustomers.cell_value Samples.note_format JS.ToString Samples.customer_A
         columnDefinition
       = MiteCustomers.get Samples.customer_A "id".
Proof.
  apply (X20_catalog_cells Samples.note_format JS.ToString "id" Samples.customer_A).
  simpl. tauto.
Defined.
